(** * AISummaryWindow: the think/answer split of a streamed summary

    A shallow embedding of the parts of [src/pages/AISummaryWindow.tsx] that
    classify model output into a "think" text and a "summary" text:

    - the [onSummaryChunk] listener registered by [handleGenerate], which
      consumes the stream chunk by chunk;
    - the result-panel split that re-derives both texts from a stored
      [SummaryResult];
    - the copy-summary button, which extracts the text to put on the
      clipboard;
    - the prologue of [handleGenerate] that checks the API key.

    JavaScript strings are modelled by [string]; the marker literals are
    ASCII, and [includes] / [split] compare code units one by one, so nothing
    in the development depends on the width of a character. *)

From Stdlib Require Import String Ascii List Bool Arith Lia.
Import ListNotations.
Local Open Scope string_scope.

(** ** The ECMAScript built-ins the component calls *)

Module JS.

(** A value read out of an array: [None] stands for [undefined]. *)
Definition value := option string.

Fixpoint drop (n : nat) (s : string) : string :=
  match n, s with
  | S n', String _ s' => drop n' s'
  | _, _ => s
  end.

(** [s.includes(m)]: [m] occurs at some position of [s]. *)
Fixpoint includes (m s : string) : bool :=
  prefix m s ||
  match s with
  | EmptyString => false
  | String _ s' => includes m s'
  end.

(** [s.indexOf(m)], with [None] for [-1]. *)
Fixpoint indexOf (m s : string) : option nat :=
  if prefix m s then Some 0
  else match s with
       | EmptyString => None
       | String _ s' => option_map S (indexOf m s')
       end.

(** Number of positions of [s] at which [m] occurs. *)
Fixpoint occurrences (m s : string) : nat :=
  (if prefix m s then 1 else 0) +
  match s with
  | EmptyString => 0
  | String _ s' => occurrences m s'
  end.

(** The text before and the text after the first occurrence of [m]. *)
Fixpoint cut (m s : string) : option (string * string) :=
  if prefix m s then Some (EmptyString, drop (String.length m) s)
  else match s with
       | EmptyString => None
       | String c s' =>
           match cut m s' with
           | Some (b, a) => Some (String c b, a)
           | None => None
           end
       end.

(** [s.split(sep)] scans left to right and cuts at every occurrence of
    [sep] that does not overlap the previous one.  Each cut with a
    non-empty separator shortens the text, so [S (length s)] rounds are
    enough (lemma [split_fuel_enough]). *)
Fixpoint split_fuel (fuel : nat) (sep s : string) : list string :=
  match fuel with
  | O => [s]
  | S fuel' =>
      match cut sep s with
      | None => [s]
      | Some (b, a) => b :: split_fuel fuel' sep a
      end
  end.

Definition split (sep s : string) : list string :=
  match sep with
  | EmptyString =>
      map (fun c => String c EmptyString) (list_ascii_of_string s)
  | String _ _ => split_fuel (S (String.length s)) sep s
  end.

(** [parts[i]] *)
Definition at_ (parts : list string) (i : nat) : value := nth_error parts i.

(** Truthiness of a string-or-undefined value. *)
Definition truthy (v : value) : bool :=
  match v with
  | Some (String _ _) => true
  | _ => false
  end.

(** [v || d] *)
Definition or_else (v : value) (d : string) : string :=
  match v with
  | Some (String c s) => String c s
  | _ => d
  end.

(** String conversion applied by [+] to an operand. *)
Definition to_string (v : value) : string :=
  match v with
  | Some s => s
  | None => "undefined"
  end.

(** [a + b] on string-or-undefined operands, one of which is a string. *)
Definition add (a b : value) : string := to_string a ++ to_string b.

End JS.

(** ** The component *)

Definition open_marker : string := "<think>".
Definition close_marker : string := "</think>".

(** The fields of [SummaryResult] (declared in [types/ai]) that the split and
    the generation handler read. *)
Record SummaryResult := mkSummaryResult {
  r_id : nat;
  r_summaryText : string;
  r_provider : string;
  r_messageCount : nat
}.

(** The React state cells written during a generation run. *)
Record ui := mkUI {
  isGenerating : bool;
  summaryText : string;
  thinkText : string;
  isThinking : bool;
  showThink : bool;
  result : option SummaryResult;
  error : string
}.

(** A queued state update.  [Append*] is the functional update
    [prev => prev + v]. *)
Inductive update :=
| SetIsGenerating (b : bool)
| SetError (s : string)
| SetSummaryText (s : string)
| SetThinkText (s : string)
| SetIsThinking (b : bool)
| SetShowThink (b : bool)
| SetResult (r : option SummaryResult)
| AppendSummaryText (v : JS.value)
| AppendThinkText (v : JS.value).

Definition apply_update (u : ui) (x : update) : ui :=
  match x with
  | SetIsGenerating b =>
      mkUI b (summaryText u) (thinkText u) (isThinking u) (showThink u)
           (result u) (error u)
  | SetError s =>
      mkUI (isGenerating u) (summaryText u) (thinkText u) (isThinking u)
           (showThink u) (result u) s
  | SetSummaryText s =>
      mkUI (isGenerating u) s (thinkText u) (isThinking u) (showThink u)
           (result u) (error u)
  | SetThinkText s =>
      mkUI (isGenerating u) (summaryText u) s (isThinking u) (showThink u)
           (result u) (error u)
  | SetIsThinking b =>
      mkUI (isGenerating u) (summaryText u) (thinkText u) b (showThink u)
           (result u) (error u)
  | SetShowThink b =>
      mkUI (isGenerating u) (summaryText u) (thinkText u) (isThinking u) b
           (result u) (error u)
  | SetResult r =>
      mkUI (isGenerating u) (summaryText u) (thinkText u) (isThinking u)
           (showThink u) r (error u)
  | AppendSummaryText v =>
      mkUI (isGenerating u) (JS.add (Some (summaryText u)) v) (thinkText u)
           (isThinking u) (showThink u) (result u) (error u)
  | AppendThinkText v =>
      mkUI (isGenerating u) (summaryText u) (JS.add (Some (thinkText u)) v)
           (isThinking u) (showThink u) (result u) (error u)
  end.

Definition apply_updates (u : ui) (log : list update) : ui :=
  fold_left apply_update log u.

(** *** The chunk listener *)

(** The variables of [handleGenerate] captured by the listener. *)
Record closure := mkClosure {
  internalThinkMode : bool;
  chunkCount : nat
}.

(** How the body of the listener's [try] block ended. *)
Inductive completion := Normal | Caught.

(** The listener passed to [onSummaryChunk]: the closure after the call, the
    state updates it queued, in order, and whether its [catch] ran. *)
Definition onSummaryChunk (k : closure) (chunk : string)
  : closure * list update * completion :=
  let k := mkClosure (internalThinkMode k) (S (chunkCount k)) in
  let content := chunk in
  let '(k, log, content) :=
    if JS.includes open_marker content then
      let parts := JS.split open_marker content in
      let log :=
        if JS.truthy (JS.at_ parts 0)
        then [AppendSummaryText (JS.at_ parts 0)]
        else [] in
      (mkClosure true (chunkCount k),
       (log ++ [SetIsThinking true; SetShowThink true])%list,
       JS.at_ parts 1)
    else (k, [], Some content) in
  match content with
  | None => (k, log, Caught)
  | Some content =>
      if JS.includes close_marker content then
        let parts := JS.split close_marker content in
        let thinkPart := JS.at_ parts 0 in
        let summaryPart := JS.or_else (JS.at_ parts 1) "" in
        (mkClosure false (chunkCount k),
         (log ++ [SetIsThinking false; SetShowThink false;
                  AppendThinkText thinkPart;
                  AppendSummaryText (Some summaryPart)])%list,
         Normal)
      else if internalThinkMode k then
        (k, (log ++ [AppendThinkText (Some content)])%list, Normal)
      else
        (k, (log ++ [AppendSummaryText (Some content)])%list, Normal)
  end.

(** The listener called on each chunk of a stream, in delivery order. *)
Fixpoint feed (k : closure) (chunks : list string) : closure * list update :=
  match chunks with
  | [] => (k, [])
  | c :: cs =>
      let '(k1, log1, _) := onSummaryChunk k c in
      let '(k2, log2) := feed k1 cs in
      (k2, (log1 ++ log2)%list)
  end.

(** *** [handleGenerate] *)

(** What the configuration service answers. *)
Record config := mkConfig {
  aiApiKey : JS.value;
  aiProvider : JS.value;
  aiModel : JS.value;
  aiSummaryDetail : JS.value;
  aiEnableThinking : option bool
}.

Record options := mkOptions {
  o_provider : string;
  o_apiKey : string;
  o_model : string;
  o_detail : string;
  o_customRequirement : string;
  o_sessionName : string;
  o_enableThinking : bool
}.

(** What the main process does once [generateSummary] is invoked: the chunks
    it streams to the listener and the object it resolves with. *)
Record backend := mkBackend {
  chunks : list string;
  success : bool;
  gen_result : option SummaryResult;
  gen_error : JS.value
}.

(** Calls to the AI service of the main process ([window.electronAPI.ai]) and
    to the loaders that refresh the window afterwards.  Reading the
    configuration service is not recorded: its answers are the [config]
    argument. *)
Inductive ipc :=
| OnSummaryChunk
| GenerateSummary (sessionId : string) (timeRangeDays : nat) (o : options)
| Cleanup
| LoadProviderInfo (providerId : string)
| LoadHistory (sessionId : string).

(** The props of the window read by [handleGenerate]. *)
Record session := mkSession {
  sessionId : string;
  sessionName : string;
  timeRangeDays : nat;
  customRequirement : string
}.

Definition reset_log : list update :=
  [SetIsGenerating true; SetError ""; SetSummaryText ""; SetThinkText "";
   SetIsThinking false; SetShowThink true; SetResult None].

Definition missing_key_message : string := "请先在设置中配置 AI API 密钥".

(** [handleGenerate], for configuration and IPC promises that resolve: the
    state updates it queues and the calls it makes, both in order. *)
Definition handleGenerate (s : session) (cfg : config) (be : backend)
  : list update * list ipc :=
  if negb (JS.truthy (Some (sessionId s))) then ([], [])
  else
    let apiKey := aiApiKey cfg in
    if negb (JS.truthy apiKey) then
      ((reset_log ++ [SetError missing_key_message; SetIsGenerating false])%list,
       [])
    else
      let '(_, stream_log) := feed (mkClosure false 0) (chunks be) in
      let o :=
        mkOptions (JS.or_else (aiProvider cfg) "zhipu")
                  (JS.to_string apiKey)
                  (JS.or_else (aiModel cfg) "glm-4.5-flash")
                  (JS.or_else (aiSummaryDetail cfg) "normal")
                  (customRequirement s)
                  (sessionName s)
                  (match aiEnableThinking cfg with
                   | Some false => false
                   | _ => true
                   end) in
      let calls :=
        [OnSummaryChunk; GenerateSummary (sessionId s) (timeRangeDays s) o;
         Cleanup] in
      if negb (success be) then
        ((reset_log ++ stream_log ++
          [SetError (JS.add (Some "生成摘要失败: ") (gen_error be));
           SetIsGenerating false])%list,
         calls)
      else
        match gen_result be with
        | Some r =>
            ((reset_log ++ stream_log ++
              [SetResult (Some r); SetIsGenerating false])%list,
             (calls ++ [LoadProviderInfo (r_provider r);
                        LoadHistory (sessionId s)])%list)
        | None =>
            ((reset_log ++ stream_log ++
              [SetError "生成摘要失败: 返回结果为空"; SetIsGenerating false])%list,
             calls)
        end.

(** The state of the window before any run. *)
Definition initial_ui : ui := mkUI false "" "" false true None "".

(** The window after [handleGenerate] reset it and the listener consumed
    [frags]. *)
Definition streamed (frags : list string) : ui :=
  apply_updates initial_ui
    (reset_log ++ snd (feed (mkClosure false 0) frags))%list.

Definition stream_mode (frags : list string) : bool :=
  internalThinkMode (fst (feed (mkClosure false 0) frags)).

(** Number of updates of a log at which the think-panel flag, which the
    listener sets together with its mode, falls from thinking to not
    thinking. *)
Fixpoint drops (u : ui) (log : list update) : nat :=
  match log with
  | [] => 0
  | x :: l =>
      (if isThinking u && negb (isThinking (apply_update u x)) then 1 else 0)
      + drops (apply_update u x) l
  end.

(** How many times a run over [frags] leaves think mode. *)
Definition leaves (frags : list string) : nat :=
  drops (apply_updates initial_ui reset_log)
        (snd (feed (mkClosure false 0) frags)).

(** *** The result panel *)

Record split_view := mkSplit {
  thinkContent : JS.value;
  mainContent : string;
  hasThink : bool
}.

(** The split computed by the result panel from a stored text; [None] when
    the render would throw on [rest.split]. *)
Definition resultPanelSplit (stored : string) : option split_view :=
  let content := JS.or_else (Some stored) "" in
  if JS.includes open_marker content && JS.includes close_marker content then
    let parts := JS.split open_marker content in
    let pre := JS.at_ parts 0 in
    let rest := JS.at_ parts 1 in
    match rest with
    | None => None
    | Some rest =>
        let parts2 := JS.split close_marker rest in
        Some (mkSplit (JS.at_ parts2 0)
                      (JS.add pre (Some (JS.or_else (JS.at_ parts2 1) "")))
                      true)
    end
  else Some (mkSplit (Some "") content false).

(** *** The copy button *)

(** The text the copy button hands to the Markdown renderer; [None] when the
    stored text is empty and nothing is copied. *)
Definition copyContent (stored : string) : option string :=
  if JS.truthy (Some stored) then
    let content := stored in
    Some (if JS.includes open_marker content
             && JS.includes close_marker content
          then JS.or_else (JS.at_ (JS.split close_marker content) 1) ""
          else content)
  else None.

(** ** Vocabulary of the statements *)

(** A text in which neither marker occurs. *)
Definition marker_free (s : string) : Prop :=
  JS.includes open_marker s = false /\ JS.includes close_marker s = false.

(** The text a fragment sequence spells. *)
Fixpoint cat (frags : list string) : string :=
  match frags with
  | [] => ""
  | f :: fs => f ++ cat fs
  end.

(** [c] occurs in [s]. *)
Fixpoint mem (c : ascii) (s : string) : bool :=
  match s with
  | EmptyString => false
  | String a s' => Ascii.eqb a c || mem c s'
  end.

(** The appended texts of a log, in order, each tagged with the buffer it
    went to ([true] for the think buffer). *)
Fixpoint pieces (log : list update) : list (bool * string) :=
  match log with
  | [] => []
  | AppendThinkText v :: l => (true, JS.to_string v) :: pieces l
  | AppendSummaryText v :: l => (false, JS.to_string v) :: pieces l
  | _ :: l => pieces l
  end.

(** The text of a log in the order it was classified, whichever buffer it
    went to. *)
Definition classified (log : list update) : string :=
  cat (map snd (pieces log)).

Definition think_of (log : list update) : string :=
  cat (map snd (filter fst (pieces log))).

Definition summary_of (log : list update) : string :=
  cat (map snd (filter (fun p => negb (fst p)) (pieces log))).

(** The updates the chunk listener can queue. *)
Definition streaming (x : update) : bool :=
  match x with
  | AppendSummaryText _ | AppendThinkText _
  | SetIsThinking _ | SetShowThink _ => true
  | _ => false
  end.

(** An update that appends [undefined]. *)
Definition appends_undefined (x : update) : bool :=
  match x with
  | AppendSummaryText None | AppendThinkText None => true
  | _ => false
  end.

(** The update that appends [s] to the buffer of mode [m]. *)
Definition append_to (m : bool) (s : string) : update :=
  if m then AppendThinkText (Some s) else AppendSummaryText (Some s).

(** The update the listener queues for the text before an open marker. *)
Definition before_open (a : string) : list update :=
  match a with
  | EmptyString => []
  | String _ _ => [AppendSummaryText (Some a)]
  end.

(** [shape f t]: the fragment [f] holds each marker at most once, the close
    marker after the open marker, and [t] is [f] without them. *)
Inductive shape : string -> string -> Prop :=
| shape_plain t :
    JS.includes open_marker t = false -> JS.includes close_marker t = false ->
    shape t t
| shape_open a b :
    JS.includes open_marker a = false ->
    JS.includes open_marker b = false -> JS.includes close_marker b = false ->
    shape (a ++ open_marker ++ b) (a ++ b)
| shape_close a b :
    JS.includes open_marker a = false -> JS.includes close_marker a = false ->
    JS.includes open_marker b = false -> JS.includes close_marker b = false ->
    shape (a ++ close_marker ++ b) (a ++ b)
| shape_both a b c :
    JS.includes open_marker a = false ->
    JS.includes open_marker b = false -> JS.includes close_marker b = false ->
    JS.includes open_marker c = false -> JS.includes close_marker c = false ->
    shape (a ++ open_marker ++ b ++ close_marker ++ c) (a ++ b ++ c).

(** Positions of the fragment boundaries inside [cat frags], counted from
    [off]. *)
Fixpoint boundaries (off : nat) (frags : list string) : list nat :=
  match frags with
  | [] => [off]
  | f :: fs => off :: boundaries (off + String.length f) fs
  end.

(** No fragment boundary falls strictly inside the [len] characters that
    start at position [lo]. *)
Definition unsplit (lo len : nat) (frags : list string) : bool :=
  forallb (fun p => negb (Nat.ltb lo p && Nat.ltb p (lo + len)))
          (boundaries 0 frags).

(** ** The rest of the window *)

(** *** Which panel is rendered *)

Definition has_result (u : ui) : bool :=
  match result u with
  | Some _ => true
  | None => false
  end.

(** [!result && !isGenerating]: the setup panel. *)
Definition showsSetup (u : ui) : bool :=
  negb (has_result u) && negb (isGenerating u).

(** [isGenerating]: the generating panel. *)
Definition showsGenerating (u : ui) : bool := isGenerating u.

(** [result && !isGenerating]: the result panel, and the title-bar buttons. *)
Definition showsResult (u : ui) : bool :=
  has_result u && negb (isGenerating u).

(** [error && ...]: the error banner of the setup panel. *)
Definition showsError (u : ui) : bool :=
  showsSetup u && JS.truthy (Some (error u)).

(** An update that sets the think-panel flag to not thinking. *)
Definition falls (x : update) : bool :=
  match x with
  | SetIsThinking false => true
  | _ => false
  end.

(** *** The history list and the delete dialog *)

Record window := mkWindow {
  cells : ui;
  history : list SummaryResult;
  showDeleteDialog : bool;
  deleteTargetId : option nat
}.

(** What [deleteSummary] resolves with. *)
Record deleteResult := mkDeleteResult {
  del_success : bool;
  del_error : JS.value
}.

(** What [getSummaryHistory] resolves with. *)
Record historyResult := mkHistoryResult {
  hist_success : bool;
  hist_history : option (list SummaryResult)
}.

(** Calls of the dialog handlers to the AI service. *)
Inductive call :=
| DeleteSummary (id : nat)
| GetSummaryHistory (sessionId : string) (limit : nat).

(** [loadHistory], given the answer of [getSummaryHistory]. *)
Definition loadHistory (r : historyResult) (w : window) : window :=
  if hist_success r then
    match hist_history r with
    | Some h => mkWindow (cells w) h (showDeleteDialog w) (deleteTargetId w)
    | None => w
    end
  else w.

(** [handleDeleteHistory]: the trash button of a history item. *)
Definition handleDeleteHistory (id : nat) (w : window) : window :=
  mkWindow (cells w) (history w) true (Some id).

(** [confirmDelete], for promises that resolve: the window afterwards, the
    calls made and the text of the alert, if one is raised.  A target that
    is [null] or [0] is falsy. *)
Definition confirmDelete
  (sid : string) (del : deleteResult) (hist : historyResult) (w : window)
  : window * list call * option string :=
  match deleteTargetId w with
  | Some (S n) =>
      let id := S n in
      if del_success del then
        let w1 := loadHistory hist w in
        let c :=
          match result (cells w) with
          | Some r =>
              if Nat.eqb (r_id r) id
              then apply_updates (cells w1)
                     [SetResult None; SetSummaryText ""; SetThinkText ""]
              else cells w1
          | None => cells w1
          end in
        (mkWindow c (history w1) false None,
         [DeleteSummary id; GetSummaryHistory sid 10],
         None)
      else
        (w, [DeleteSummary id],
         Some (JS.add (Some "删除失败: ") (del_error del)))
  | _ => (w, [], None)
  end.

(** *** Clicks on the think header during a run *)

(** What reaches the window during a run: a chunk for the listener, or a
    click on the header of the think panel, which is rendered while the
    think text is not empty and toggles [showThink]. *)
Inductive event :=
| Chunk (c : string)
| ClickThinkHeader.

Definition on_event (st : ui * closure) (e : event) : ui * closure :=
  match e with
  | Chunk c =>
      (apply_updates (fst st) (snd (fst (onSummaryChunk (snd st) c))),
       fst (fst (onSummaryChunk (snd st) c)))
  | ClickThinkHeader =>
      if JS.truthy (Some (thinkText (fst st)))
      then (apply_update (fst st) (SetShowThink (negb (showThink (fst st)))),
            snd st)
      else st
  end.

(** The window and the listener after [handleGenerate] reset the window and
    the events arrived in order. *)
Definition interact (events : list event) : ui * closure :=
  fold_left on_event events
    (apply_updates initial_ui reset_log, mkClosure false 0).

(** *** [handleGenerate] when its [try] block throws *)

(** The step of the [try] block of [handleGenerate] that rejects or
    throws. *)
Inductive stage :=
| AtApiKey     (* the import of the configuration service, or getAiApiKey *)
| AtSettings   (* getAiProvider, getAiModel, getAiSummaryDetail or
                  getAiEnableThinking *)
| AtSubscribe  (* onSummaryChunk *)
| AtGenerate   (* generateSummary *)
| AtCleanup.   (* cleanup, or reading the answer of generateSummary *)

(** The options object passed to [generateSummary]. *)
Definition generateOptions (s : session) (cfg : config) : options :=
  mkOptions (JS.or_else (aiProvider cfg) "zhipu")
            (JS.to_string (aiApiKey cfg))
            (JS.or_else (aiModel cfg) "glm-4.5-flash")
            (JS.or_else (aiSummaryDetail cfg) "normal")
            (customRequirement s)
            (sessionName s)
            (match aiEnableThinking cfg with
             | Some false => false
             | _ => true
             end).

(** The [catch] block, [e] being [String(e)]. *)
Definition caught_log (e : string) : list update :=
  [SetError (JS.add (Some "生成摘要失败: ") (Some e)); SetIsGenerating false].

(** [handleGenerate] when the step [at_stage] fails with [e]; the chunks of
    [be] are those delivered before the failure.  A step that the run does
    not reach, because the API key is missing, does not fail. *)
Definition handleGenerateCaught
  (s : session) (cfg : config) (be : backend) (at_stage : stage) (e : string)
  : list update * list ipc :=
  if negb (JS.truthy (Some (sessionId s))) then ([], [])
  else
    match at_stage with
    | AtApiKey => ((reset_log ++ caught_log e)%list, [])
    | _ =>
        if negb (JS.truthy (aiApiKey cfg)) then handleGenerate s cfg be
        else
          let stream_log := snd (feed (mkClosure false 0) (chunks be)) in
          let dispatch :=
            GenerateSummary (sessionId s) (timeRangeDays s)
                            (generateOptions s cfg) in
          match at_stage with
          | AtApiKey | AtSettings =>
              ((reset_log ++ caught_log e)%list, [])
          | AtSubscribe =>
              ((reset_log ++ caught_log e)%list, [OnSummaryChunk])
          | AtGenerate =>
              ((reset_log ++ stream_log ++ caught_log e)%list,
               [OnSummaryChunk; dispatch])
          | AtCleanup =>
              ((reset_log ++ stream_log ++ caught_log e)%list,
               [OnSummaryChunk; dispatch; Cleanup])
          end
    end.

(** A run of [handleGenerate], with the failure it meets if any. *)
Definition handleGenerateRun
  (fault : option (stage * string))
  (s : session) (cfg : config) (be : backend)
  : list update * list ipc :=
  match fault with
  | None => handleGenerate s cfg be
  | Some (at_stage, e) => handleGenerateCaught s cfg be at_stage e
  end.

(** * Facts about strings *)


Lemma app_nil_r (s : string) : s ++ "" = s.
Proof. induction s; simpl; congruence. Qed.

Lemma app_assoc (a b c : string) : (a ++ b) ++ c = a ++ b ++ c.
Proof. induction a; simpl; congruence. Qed.

Lemma length_app (a b : string) :
  String.length (a ++ b) = String.length a + String.length b.
Proof. induction a; simpl; congruence. Qed.

Lemma app_inv_head (a b c : string) : a ++ b = a ++ c -> b = c.
Proof. induction a; simpl; intros H; [assumption|]. injection H; auto. Qed.

(** Two ways of cutting the same text share the shorter left part. *)
Lemma app_eq_app (a b c d : string) :
  a ++ b = c ++ d ->
  exists l, (c = a ++ l /\ b = l ++ d) \/ (a = c ++ l /\ d = l ++ b).
Proof.
  revert c; induction a as [|x a IH]; intros c H; simpl in *.
  - exists c; left; auto.
  - destruct c as [|y c]; simpl in *.
    + exists (String x a); right; auto.
    + injection H as -> H. destruct (IH _ H) as [l [[-> ->]|[-> ->]]];
        exists l; [left|right]; auto.
Qed.

Lemma app_eq_app_le (a b c d : string) :
  a ++ b = c ++ d -> String.length a <= String.length c ->
  exists l, c = a ++ l /\ b = l ++ d.
Proof.
  intros H Hle. destruct (app_eq_app _ _ _ _ H) as [l [[-> ->]|[-> ->]]].
  - exists l; auto.
  - rewrite length_app in Hle. destruct l; simpl in Hle; [|lia].
    exists ""; rewrite !app_nil_r; auto.
Qed.

Lemma prefix_spec (m s : string) :
  prefix m s = true <-> exists r, s = m ++ r.
Proof.
  revert s; induction m as [|c m IH]; intros s; simpl.
  - destruct s; split; eauto.
  - destruct s as [|d s]; simpl.
    + split; [discriminate|intros [r H]; discriminate].
    + destruct (ascii_dec c d) as [->|Hn].
      * rewrite IH. split; intros [r H]; exists r; congruence.
      * split; [discriminate|intros [r H]; congruence].
Qed.

#[local] Arguments prefix : simpl never.

Lemma prefix_app (m r : string) : prefix m (m ++ r) = true.
Proof. apply prefix_spec; eauto. Qed.

Lemma prefix_false (m s : string) :
  prefix m s = false <-> forall r, s <> m ++ r.
Proof.
  split.
  - intros H r E. assert (prefix m s = true) by (apply prefix_spec; eauto).
    congruence.
  - intros H. destruct (prefix m s) eqn:E; auto.
    apply prefix_spec in E as [r E]. destruct (H _ E).
Qed.

Lemma drop_app (m r : string) : JS.drop (String.length m) (m ++ r) = r.
Proof. induction m; simpl; auto. Qed.

Lemma includes_spec (m s : string) :
  JS.includes m s = true <-> exists u v, s = u ++ m ++ v.
Proof.
  induction s as [|c s IH]; simpl.
  - rewrite orb_false_r, prefix_spec. split.
    + intros [r H]. exists "", r; auto.
    + intros [u [v H]]. destruct u; simpl in H; [eauto|discriminate].
  - rewrite orb_true_iff, prefix_spec, IH. split.
    + intros [[r H]|[u [v H]]].
      * exists "", r; auto.
      * exists (String c u), v; simpl; congruence.
    + intros [u [v H]]. destruct u as [|d u]; simpl in H.
      * left; eauto.
      * right. exists u, v. congruence.
Qed.

Lemma includes_here (m u v : string) : JS.includes m (u ++ m ++ v) = true.
Proof. apply includes_spec; eauto. Qed.

(** A text that holds no [m] has no part that holds one. *)
Lemma includes_part (m a f b : string) :
  JS.includes m (a ++ f ++ b) = false -> JS.includes m f = false.
Proof.
  intros H. destruct (JS.includes m f) eqn:E; auto.
  apply includes_spec in E as [u [v ->]].
  rewrite <- H. symmetry. apply includes_spec.
  exists (a ++ u), (v ++ b). now rewrite !app_assoc.
Qed.

Lemma includes_left (m a b : string) :
  JS.includes m (a ++ b) = false -> JS.includes m a = false.
Proof.
  intros H. apply (includes_part m "" a b). exact H.
Qed.

Lemma includes_right (m a b : string) :
  JS.includes m (a ++ b) = false -> JS.includes m b = false.
Proof.
  intros H. apply (includes_part m a b ""). now rewrite app_nil_r.
Qed.

Lemma cut_spec (m s b a : string) :
  JS.cut m s = Some (b, a) -> s = b ++ m ++ a.
Proof.
  revert b; induction s as [|c s IH]; intros b; simpl.
  - destruct (prefix m "") eqn:E; [|discriminate].
    intros H; injection H as <- <-.
    destruct m; [reflexivity|discriminate].
  - destruct (prefix m (String c s)) eqn:E.
    + intros H; injection H as <- <-.
      apply prefix_spec in E as [r E]. rewrite E. now rewrite drop_app.
    + destruct (JS.cut m s) as [[b' a']|]; [|discriminate].
      intros H; injection H as <- <-. simpl. f_equal. now apply IH.
Qed.

Lemma cut_none (m s : string) :
  JS.cut m s = None <-> JS.includes m s = false.
Proof.
  induction s as [|c s IH]; simpl.
  - destruct (prefix m ""); simpl; split; congruence.
  - destruct (prefix m (String c s)); simpl; [split; congruence|].
    rewrite <- IH. destruct (JS.cut m s) as [[? ?]|]; split; congruence.
Qed.

Lemma cut_some (m s : string) :
  JS.includes m s = true -> exists b a, JS.cut m s = Some (b, a).
Proof.
  intros H. destruct (JS.cut m s) as [[b a]|] eqn:E; eauto.
  apply cut_none in E. congruence.
Qed.

(** The text before the first occurrence holds none. *)
Lemma cut_before (m s b a : string) :
  m <> "" -> JS.cut m s = Some (b, a) -> JS.includes m b = false.
Proof.
  intros Hm. revert b; induction s as [|c s IH]; intros b; simpl.
  - destruct (prefix m "") eqn:E; [|discriminate].
    destruct m; [congruence|discriminate].
  - destruct (prefix m (String c s)) eqn:E.
    + intros H; injection H as <- <-. destruct m; [congruence|reflexivity].
    + destruct (JS.cut m s) as [[b' a']|] eqn:C; [|discriminate].
      intros H; injection H as <- <-. simpl. rewrite (IH _ eq_refl).
      rewrite orb_false_r. apply prefix_false. intros r Hr.
      apply cut_spec in C. rewrite prefix_false in E.
      apply (E (r ++ m ++ a')). rewrite C.
      change (String c (b' ++ m ++ a')) with (String c b' ++ m ++ a').
      now rewrite Hr, app_assoc.
Qed.

Lemma cut_length (m s b a : string) :
  JS.cut m s = Some (b, a) ->
  String.length s = String.length b + String.length m + String.length a.
Proof.
  intros H. apply cut_spec in H. subst. rewrite !length_app. lia.
Qed.

Lemma indexOf_cut (m s : string) :
  JS.indexOf m s = option_map (fun p => String.length (fst p)) (JS.cut m s).
Proof.
  induction s as [|c s IH]; simpl.
  - destruct (prefix m ""); reflexivity.
  - destruct (prefix m (String c s)); [reflexivity|].
    rewrite IH. destruct (JS.cut m s) as [[b a]|]; reflexivity.
Qed.

Lemma indexOf_spec (m s : string) (i : nat) :
  JS.indexOf m s = Some i ->
  exists u v, s = u ++ m ++ v /\ String.length u = i.
Proof.
  rewrite indexOf_cut. destruct (JS.cut m s) as [[b a]|] eqn:C; simpl;
    [|discriminate].
  intros H; injection H as <-. exists b, a. split; auto.
  now apply cut_spec.
Qed.

Lemma mem_app (c : ascii) (a b : string) :
  mem c (a ++ b) = mem c a || mem c b.
Proof. induction a; simpl; auto. rewrite IHa. now rewrite orb_assoc. Qed.

Lemma mem_head (c : ascii) (s : string) : mem c (String c s) = true.
Proof. simpl. now rewrite Ascii.eqb_refl. Qed.


(** ** Occurrences of a text whose first character is not repeated in it *)

Lemma cut_hit (m s : string) :
  prefix m s = true -> JS.cut m s = Some ("", JS.drop (String.length m) s).
Proof. intros H. destruct s; simpl; now rewrite H. Qed.

Lemma cut_miss (m : string) (c : ascii) (s : string) :
  prefix m (String c s) = false ->
  JS.cut m (String c s) =
  match JS.cut m s with
  | Some (b, a) => Some (String c b, a)
  | None => None
  end.
Proof. intros H. simpl. now rewrite H. Qed.

Lemma includes_cons_false (m : string) (c : ascii) (s : string) :
  JS.includes m (String c s) = false ->
  prefix m (String c s) = false /\ JS.includes m s = false.
Proof. simpl. apply orb_false_iff. Qed.

Lemma mem_inside (c : ascii) (l r : string) : mem c (l ++ String c r) = true.
Proof. now rewrite mem_app, mem_head, orb_true_r. Qed.

(** The first occurrence of such a marker in [b ++ m ++ a] is the one
    spelled out, as soon as [b] holds none. *)
Lemma cut_anchored (c : ascii) (m' b a : string) :
  mem c m' = false ->
  JS.includes (String c m') b = false ->
  JS.cut (String c m') (b ++ String c m' ++ a) = Some (b, a).
Proof.
  intros Hc. induction b as [|x b IH]; intros Hb.
  - change ("" ++ String c m' ++ a) with (String c m' ++ a).
    rewrite cut_hit by apply prefix_app. now rewrite drop_app.
  - apply includes_cons_false in Hb as [Hp Hb].
    change (String x b ++ String c m' ++ a)
      with (String x (b ++ String c m' ++ a)).
    rewrite cut_miss, (IH Hb); [reflexivity|].
    apply prefix_false. intros r Hr. simpl in Hr. injection Hr as -> Hr.
    rewrite prefix_false in Hp.
    destruct (app_eq_app _ _ _ _ Hr) as [l [[E1 E2]|[E1 E2]]].
    + destruct l as [|y l].
      * apply (Hp ""). rewrite app_nil_r in *. now subst.
      * simpl in E2. injection E2 as <- _.
        rewrite E1, mem_inside in Hc. discriminate.
    + apply (Hp l). simpl. now rewrite E1.
Qed.

(** A marker found in [x ++ w ++ y], where [w] starts with the same
    character, repeats it nowhere either and is no prefix of the marker nor
    the marker of it, lies wholly inside [x] or inside [y]. *)
Lemma includes_around (c : ascii) (m' w' x y : string) :
  mem c m' = false -> mem c w' = false ->
  (forall r r', String c m' ++ r <> String c w' ++ r') ->
  JS.includes (String c m') (x ++ String c w' ++ y) = true ->
  JS.includes (String c m') x = true \/ JS.includes (String c m') y = true.
Proof.
  intros Hm Hw Hd H. apply includes_spec in H as [u [v H]].
  destruct (app_eq_app _ _ _ _ H) as [l [[E1 E2]|[E1 E2]]].
  - (* the occurrence starts at or after the start of [w] *)
    destruct (app_eq_app _ _ _ _ E2) as [l2 [[E3 E4]|[E3 E4]]].
    + right. apply includes_spec. eauto.
    + destruct l as [|z l].
      * simpl in E3. subst l2. destruct (Hd v y). exact E4.
      * destruct l2 as [|z2 l2].
        -- right. apply includes_spec. exists "", v. simpl in *. now rewrite E4.
        -- simpl in E3, E4. injection E3 as -> E3. injection E4 as -> _.
           rewrite E3, mem_inside in Hw. discriminate.
  - (* the occurrence starts inside [x] *)
    destruct (app_eq_app _ _ _ _ E2) as [l2 [[E3 E4]|[E3 E4]]].
    + left. apply includes_spec. exists u, l2. now rewrite E1, E3.
    + destruct l2 as [|z l2].
      * left. apply includes_spec. exists u, "".
        rewrite app_nil_r in *. now subst.
      * destruct l as [|z' l].
        -- destruct (Hd v y). simpl in *. congruence.
        -- simpl in E3, E4. injection E3 as -> E3. injection E4 as -> _.
           rewrite E3, mem_inside in Hm. discriminate.
Qed.

(** A marker cannot start inside a text that lacks its first character. *)
Lemma includes_no_head (c : ascii) (m' t y : string) :
  mem c t = false ->
  JS.includes (String c m') (t ++ y) = true ->
  JS.includes (String c m') y = true.
Proof.
  induction t as [|a t IH]; simpl; intros Hc H; [assumption|].
  apply orb_false_iff in Hc as [Ha Hc]. apply orb_true_iff in H as [H|H].
  - apply prefix_spec in H as [r H]. simpl in H. injection H as -> _.
    rewrite Ascii.eqb_refl in Ha. discriminate.
  - auto.
Qed.

Lemma last_char (c : ascii) (x l A : string) :
  A ++ String c "" = x ++ l -> l <> "" -> mem c l = true.
Proof.
  revert A; induction x as [|y x IH]; intros A H Hl; simpl in H.
  - subst l. apply mem_inside.
  - destruct A as [|z A]; simpl in H; injection H as -> H.
    + destruct x; simpl in H; [congruence|discriminate].
    + eauto.
Qed.

(** A marker cannot end inside a text that lacks its last character. *)
Lemma includes_no_tail (c : ascii) (m0 x t : string) :
  mem c t = false ->
  JS.includes (m0 ++ String c "") (x ++ t) = true ->
  JS.includes (m0 ++ String c "") x = true.
Proof.
  intros Hc H. apply includes_spec in H as [u [v H]].
  rewrite <- app_assoc in H.
  destruct (app_eq_app _ _ _ _ H) as [l [[E1 E2]|[E1 E2]]].
  - destruct l as [|z l].
    + apply includes_spec. exists u, "". rewrite app_nil_r in *. now subst.
    + rewrite <- app_assoc in E1. apply last_char in E1; [|discriminate].
      rewrite E2, mem_app, E1 in Hc. discriminate.
  - apply includes_spec. exists u, l. now rewrite E1, app_assoc.
Qed.

Lemma proper_prefix_mem (c : ascii) (M m1 m2 : string) :
  m1 ++ m2 = M ++ String c "" -> m2 <> "" -> mem c M = false ->
  mem c m1 = false.
Proof.
  intros H Hn Hc. destruct (app_eq_app _ _ _ _ H) as [l [[E1 E2]|[E1 E2]]].
  - rewrite E1, mem_app in Hc. now apply orb_false_iff in Hc.
  - destruct l as [|z l]; simpl in E2.
    + rewrite app_nil_r in E1. now subst.
    + injection E2 as _ E2. destruct l, m2; simpl in E2; congruence.
Qed.

Lemma proper_suffix_mem (c : ascii) (M m1 m2 : string) :
  m1 ++ m2 = String c M -> m1 <> "" -> mem c M = false -> mem c m2 = false.
Proof.
  intros H Hn Hc. destruct m1 as [|a m1]; [congruence|].
  simpl in H. injection H as _ H. rewrite <- H, mem_app in Hc.
  now apply orb_false_iff in Hc.
Qed.

(** ** [split] *)

Lemma split_fuel_any (sep : string) (f1 f2 : nat) (s : string) :
  sep <> "" -> String.length s < f1 -> String.length s < f2 ->
  JS.split_fuel f1 sep s = JS.split_fuel f2 sep s.
Proof.
  intros Hs. revert f2 s; induction f1 as [|f1 IH]; intros f2 s H1 H2;
    [lia|].
  destruct f2 as [|f2]; [lia|]. simpl.
  destruct (JS.cut sep s) as [[b a]|] eqn:C; [|reflexivity].
  apply cut_length in C. assert (0 < String.length sep).
  { destruct sep; [congruence|simpl; lia]. }
  f_equal. apply IH; lia.
Qed.

(** The rounds given to [split] never run out. *)
Lemma split_fuel_enough (sep : string) (fuel : nat) (s : string) :
  sep <> "" -> String.length s < fuel ->
  JS.split_fuel fuel sep s = JS.split sep s.
Proof.
  intros Hs H. destruct sep; [congruence|]. unfold JS.split.
  apply split_fuel_any; [discriminate|lia|lia].
Qed.

Lemma split_none (sep s : string) :
  sep <> "" -> JS.includes sep s = false -> JS.split sep s = [s].
Proof.
  intros Hs H. apply cut_none in H. destruct sep; [congruence|].
  unfold JS.split. simpl. now rewrite H.
Qed.

Lemma split_some (sep s b a : string) :
  sep <> "" -> JS.cut sep s = Some (b, a) ->
  JS.split sep s = b :: JS.split sep a.
Proof.
  intros Hs C. rewrite <- (split_fuel_enough sep (S (String.length s)) s)
    by (auto; lia).
  simpl. rewrite C. f_equal. apply split_fuel_enough; auto.
  apply cut_length in C. destruct sep; [congruence|simpl in C; lia].
Qed.

(** Joining the parts with the separator gives the text back. *)
Lemma split_join (sep s : string) :
  sep <> "" -> String.concat sep (JS.split sep s) = s.
Proof.
  intros Hs. remember (String.length s) as n eqn:Hn.
  revert s Hn. induction n as [n IH] using lt_wf_ind. intros s Hn.
  destruct (JS.cut sep s) as [[b a]|] eqn:C.
  - rewrite (split_some _ _ _ _ Hs C). pose proof (cut_length _ _ _ _ C).
    assert (0 < String.length sep) by (destruct sep; [congruence|simpl; lia]).
    assert (IHa : String.concat sep (JS.split sep a) = a).
    { apply (IH (String.length a)); [lia|reflexivity]. }
    apply cut_spec in C. subst s.
    destruct (JS.split sep a) as [|p ps] eqn:E.
    + destruct (JS.cut sep a) as [[? ?]|] eqn:C'.
      * rewrite (split_some _ _ _ _ Hs C') in E. discriminate.
      * apply cut_none in C'. rewrite (split_none _ _ Hs C') in E.
        discriminate.
    + simpl in *. now rewrite IHa.
  - apply cut_none in C. now rewrite (split_none _ _ Hs C).
Qed.

Lemma split_nonempty (sep s : string) :
  sep <> "" -> exists p, JS.at_ (JS.split sep s) 0 = Some p.
Proof.
  intros Hs. destruct (JS.cut sep s) as [[b a]|] eqn:C.
  - rewrite (split_some _ _ _ _ Hs C). simpl. eauto.
  - apply cut_none in C. rewrite (split_none _ _ Hs C). simpl. eauto.
Qed.

(** Where [includes] answers yes, [split] has a second part. *)
Lemma split_second (sep s : string) :
  sep <> "" -> JS.includes sep s = true ->
  exists p, JS.at_ (JS.split sep s) 1 = Some p.
Proof.
  intros Hs H. apply cut_some in H as [b [a C]].
  rewrite (split_some _ _ _ _ Hs C). simpl.
  apply (split_nonempty sep a Hs).
Qed.

Lemma split_two (c : ascii) (m' b a : string) :
  mem c m' = false ->
  JS.includes (String c m') b = false ->
  JS.includes (String c m') a = false ->
  JS.split (String c m') (b ++ String c m' ++ a) = [b; a].
Proof.
  intros Hc Hb Ha.
  rewrite (split_some _ _ b a) by (try discriminate; now apply cut_anchored).
  f_equal. apply split_none; [discriminate|assumption].
Qed.

(** * The two markers *)

Lemma open_cut (b a : string) :
  JS.includes open_marker b = false ->
  JS.cut open_marker (b ++ open_marker ++ a) = Some (b, a).
Proof. now apply (cut_anchored "<" "think>"). Qed.

Lemma close_cut (b a : string) :
  JS.includes close_marker b = false ->
  JS.cut close_marker (b ++ close_marker ++ a) = Some (b, a).
Proof. now apply (cut_anchored "<" "/think>"). Qed.

(** No open marker straddles a close marker, nor the other way round. *)
Lemma open_around_close (x y : string) :
  JS.includes open_marker x = false -> JS.includes open_marker y = false ->
  JS.includes open_marker (x ++ close_marker ++ y) = false.
Proof.
  intros Hx Hy. destruct (JS.includes _ (x ++ _ ++ y)) eqn:E; [|reflexivity].
  exfalso. unfold open_marker, close_marker in *.
  apply (includes_around "<" "think>" "/think>") in E;
    [|reflexivity|reflexivity|intros r r' H; discriminate].
  destruct E; congruence.
Qed.

Lemma close_around_open (x y : string) :
  JS.includes close_marker x = false -> JS.includes close_marker y = false ->
  JS.includes close_marker (x ++ open_marker ++ y) = false.
Proof.
  intros Hx Hy. destruct (JS.includes _ (x ++ _ ++ y)) eqn:E; [|reflexivity].
  exfalso. unfold open_marker, close_marker in *.
  apply (includes_around "<" "/think>" "think>") in E;
    [|reflexivity|reflexivity|intros r r' H; discriminate].
  destruct E; congruence.
Qed.

Lemma split_open (a b : string) :
  JS.includes open_marker a = false -> JS.includes open_marker b = false ->
  JS.split open_marker (a ++ open_marker ++ b) = [a; b].
Proof. now apply (split_two "<" "think>"). Qed.

Lemma split_close (a b : string) :
  JS.includes close_marker a = false -> JS.includes close_marker b = false ->
  JS.split close_marker (a ++ close_marker ++ b) = [a; b].
Proof. now apply (split_two "<" "/think>"). Qed.

Lemma or_else_empty (s : string) : JS.or_else (Some s) "" = s.
Proof. now destruct s. Qed.

(** * The listener on one chunk *)

(** Reduction of the listener's control flow that leaves the string
    functions folded. *)
Ltac reduce :=
  cbn [internalThinkMode chunkCount JS.at_ nth_error JS.truthy fst snd app].

Section Listener.

Variable k : closure.

Let k' (m : bool) : closure := mkClosure m (S (chunkCount k)).

(** A chunk without a whole marker goes to the buffer of the current mode. *)
Lemma chunk_plain (f : string) :
  marker_free f ->
  onSummaryChunk k f =
  (k' (internalThinkMode k), [append_to (internalThinkMode k) f], Normal).
Proof.
  intros [Ho Hc]. unfold onSummaryChunk. rewrite Ho. reduce. rewrite Hc.
  unfold append_to. now destruct (internalThinkMode k).
Qed.

(** A chunk with one open marker. *)
Lemma chunk_open (a b : string) :
  JS.includes open_marker a = false -> marker_free b ->
  onSummaryChunk k (a ++ open_marker ++ b) =
  (k' true,
   (before_open a ++
    [SetIsThinking true; SetShowThink true; AppendThinkText (Some b)])%list,
   Normal).
Proof.
  intros Ha [Ho Hc]. unfold onSummaryChunk.
  rewrite includes_here, split_open by assumption. reduce. rewrite Hc.
  now destruct a.
Qed.

(** A chunk with one close marker and no open marker. *)
Lemma chunk_close (x y : string) :
  marker_free x -> marker_free y ->
  onSummaryChunk k (x ++ close_marker ++ y) =
  (k' false,
   [SetIsThinking false; SetShowThink false;
    AppendThinkText (Some x); AppendSummaryText (Some y)],
   Normal).
Proof.
  intros [Hxo Hxc] [Hyo Hyc]. unfold onSummaryChunk.
  rewrite open_around_close by assumption. reduce.
  rewrite includes_here, split_close by assumption. reduce.
  now rewrite or_else_empty.
Qed.

(** A chunk with an open marker and then a close marker. *)
Lemma chunk_both (a b c : string) :
  JS.includes open_marker a = false -> marker_free b -> marker_free c ->
  onSummaryChunk k (a ++ open_marker ++ b ++ close_marker ++ c) =
  (k' false,
   (before_open a ++
    [SetIsThinking true; SetShowThink true;
     SetIsThinking false; SetShowThink false;
     AppendThinkText (Some b); AppendSummaryText (Some c)])%list,
   Normal).
Proof.
  intros Ha [Hbo Hbc] [Hco Hcc]. unfold onSummaryChunk.
  rewrite includes_here, split_open
    by (try apply open_around_close; assumption).
  reduce. rewrite includes_here, split_close by assumption. reduce.
  rewrite or_else_empty. now destruct a.
Qed.

(** The body of the listener never throws: whenever it reads [parts[1]]
    into [content], [includes] has answered yes. *)
Lemma chunk_normal (chunk : string) :
  snd (onSummaryChunk k chunk) = Normal.
Proof.
  unfold onSummaryChunk.
  destruct (JS.includes open_marker chunk) eqn:Ho.
  - destruct (split_second open_marker chunk) as [p Hp];
      [discriminate|assumption|].
    rewrite Hp. reduce.
    destruct (JS.includes close_marker p); reflexivity.
  - reduce. destruct (JS.includes close_marker chunk); [reflexivity|].
    destruct (internalThinkMode k); reflexivity.
Qed.

(** It queues only buffer appends and think-panel flags, and never appends
    [undefined]. *)
Lemma chunk_log (chunk : string) :
  forallb streaming (snd (fst (onSummaryChunk k chunk))) = true /\
  existsb appends_undefined (snd (fst (onSummaryChunk k chunk))) = false.
Proof.
  unfold onSummaryChunk.
  destruct (JS.includes open_marker chunk) eqn:Ho.
  - destruct (split_second open_marker chunk) as [p Hp];
      [discriminate|assumption|].
    destruct (split_nonempty open_marker chunk) as [q Hq]; [discriminate|].
    rewrite Hp, Hq. reduce.
    destruct (JS.includes close_marker p).
    + destruct (split_nonempty close_marker p) as [r Hr]; [discriminate|].
      destruct (JS.split close_marker p); [discriminate Hr|].
      destruct q; split; reflexivity.
    + destruct q; split; reflexivity.
  - reduce. destruct (JS.includes close_marker chunk).
    + destruct (split_nonempty close_marker chunk) as [r Hr];
        [discriminate|].
      destruct (JS.split close_marker chunk); [discriminate Hr|].
      split; reflexivity.
    + destruct (internalThinkMode k); split; reflexivity.
Qed.

(** The think-panel flag follows the closure's mode. *)
Lemma chunk_isThinking (u : ui) (chunk : string) :
  isThinking u = internalThinkMode k ->
  isThinking (apply_updates u (snd (fst (onSummaryChunk k chunk)))) =
  internalThinkMode (fst (fst (onSummaryChunk k chunk))).
Proof.
  intros Hu. unfold onSummaryChunk.
  destruct (JS.includes open_marker chunk) eqn:Ho.
  - destruct (split_second open_marker chunk) as [p Hp];
      [discriminate|assumption|].
    rewrite Hp. reduce.
    destruct (JS.truthy _), (JS.includes close_marker p); reflexivity.
  - reduce. destruct (JS.includes close_marker chunk); [reflexivity|].
    destruct (internalThinkMode k) eqn:E; cbn; congruence.
Qed.

End Listener.

(** * Logs and the buffers they build *)

Lemma cat_app (l1 l2 : list string) : cat (l1 ++ l2) = cat l1 ++ cat l2.
Proof. induction l1; simpl; [reflexivity|]. now rewrite IHl1, app_assoc. Qed.

Lemma pieces_app (l1 l2 : list update) :
  pieces (l1 ++ l2) = (pieces l1 ++ pieces l2)%list.
Proof.
  induction l1 as [|x l1 IH]; [reflexivity|].
  destruct x; simpl; now rewrite ?IH.
Qed.

Lemma think_of_app (l1 l2 : list update) :
  think_of (l1 ++ l2) = think_of l1 ++ think_of l2.
Proof.
  unfold think_of. now rewrite pieces_app, filter_app, map_app, cat_app.
Qed.

Lemma summary_of_app (l1 l2 : list update) :
  summary_of (l1 ++ l2) = summary_of l1 ++ summary_of l2.
Proof.
  unfold summary_of. now rewrite pieces_app, filter_app, map_app, cat_app.
Qed.

Lemma classified_app (l1 l2 : list update) :
  classified (l1 ++ l2) = classified l1 ++ classified l2.
Proof. unfold classified. now rewrite pieces_app, map_app, cat_app. Qed.

Lemma apply_updates_app (u : ui) (l1 l2 : list update) :
  apply_updates u (l1 ++ l2) = apply_updates (apply_updates u l1) l2.
Proof. apply fold_left_app. Qed.

(** What a log of listener updates does to the window. *)
Lemma streaming_ui (log : list update) (u : ui) :
  forallb streaming log = true ->
  thinkText (apply_updates u log) = thinkText u ++ think_of log /\
  summaryText (apply_updates u log) = summaryText u ++ summary_of log /\
  error (apply_updates u log) = error u /\
  isGenerating (apply_updates u log) = isGenerating u /\
  result (apply_updates u log) = result u.
Proof.
  revert u; induction log as [|x log IH]; intros u H.
  - cbn. now rewrite !app_nil_r.
  - cbn [forallb] in H. apply andb_true_iff in H as [Hx H].
    change (apply_updates u (x :: log))
      with (apply_updates (apply_update u x) log).
    destruct (IH (apply_update u x) H) as (E1 & E2 & E3 & E4 & E5).
    rewrite E1, E2, E3, E4, E5.
    change (x :: log) with ([x] ++ log)%list.
    rewrite think_of_app, summary_of_app.
    destruct x; try discriminate Hx; cbn;
      unfold JS.add; cbn; rewrite ?app_nil_r, ?app_assoc; auto.
Qed.

(** * The listener on a stream *)

Lemma feed_cons (k : closure) (c : string) (cs : list string) :
  feed k (c :: cs) =
  (fst (feed (fst (fst (onSummaryChunk k c))) cs),
   (snd (fst (onSummaryChunk k c)) ++
    snd (feed (fst (fst (onSummaryChunk k c))) cs))%list).
Proof.
  simpl. destruct (onSummaryChunk k c) as [[k1 log1] e]. simpl.
  now destruct (feed k1 cs).
Qed.

Lemma feed_app (k : closure) (l1 l2 : list string) :
  feed k (l1 ++ l2) =
  (fst (feed (fst (feed k l1)) l2),
   (snd (feed k l1) ++ snd (feed (fst (feed k l1)) l2))%list).
Proof.
  revert k; induction l1 as [|c l1 IH]; intros k.
  - simpl. now destruct (feed k l2).
  - change ((c :: l1) ++ l2)%list with (c :: (l1 ++ l2))%list.
    rewrite !feed_cons, IH. cbn [fst snd]. now rewrite List.app_assoc.
Qed.

Lemma feed_streaming (frags : list string) (k : closure) :
  forallb streaming (snd (feed k frags)) = true.
Proof.
  revert k; induction frags as [|c cs IH]; intros k; [reflexivity|].
  rewrite feed_cons. cbn [snd]. rewrite forallb_app, IH.
  now rewrite (proj1 (chunk_log k c)).
Qed.

Lemma feed_defined (frags : list string) (k : closure) :
  existsb appends_undefined (snd (feed k frags)) = false.
Proof.
  revert k; induction frags as [|c cs IH]; intros k; [reflexivity|].
  rewrite feed_cons. cbn [snd]. rewrite existsb_app, IH.
  now rewrite (proj2 (chunk_log k c)).
Qed.

Lemma feed_isThinking (frags : list string) (k : closure) (u : ui) :
  isThinking u = internalThinkMode k ->
  isThinking (apply_updates u (snd (feed k frags))) =
  internalThinkMode (fst (feed k frags)).
Proof.
  revert k u; induction frags as [|c cs IH]; intros k u H; [exact H|].
  rewrite feed_cons. cbn [fst snd]. rewrite apply_updates_app.
  apply IH. now apply chunk_isThinking.
Qed.

(** The window after a stream, read off the listener's log. *)
Lemma streamed_spec (frags : list string) :
  thinkText (streamed frags) = think_of (snd (feed (mkClosure false 0) frags))
  /\ summaryText (streamed frags) =
     summary_of (snd (feed (mkClosure false 0) frags))
  /\ isThinking (streamed frags) = stream_mode frags
  /\ error (streamed frags) = "".
Proof.
  unfold streamed, stream_mode. rewrite apply_updates_app.
  destruct (streaming_ui _ (apply_updates initial_ui reset_log)
              (feed_streaming frags (mkClosure false 0)))
    as (E1 & E2 & E3 & _).
  rewrite E1, E2, E3. repeat split; try reflexivity.
  now apply feed_isThinking.
Qed.

(** A stream of chunks without a whole marker. *)
Lemma feed_plain (frags : list string) (k : closure) :
  Forall marker_free frags ->
  internalThinkMode (fst (feed k frags)) = internalThinkMode k /\
  snd (feed k frags) = map (append_to (internalThinkMode k)) frags.
Proof.
  revert k; induction frags as [|c cs IH]; intros k H; [now split|].
  inversion H as [|? ? Hc Hcs]; subst.
  rewrite feed_cons, (chunk_plain k c Hc). cbn [fst snd].
  destruct (IH (mkClosure (internalThinkMode k) (S (chunkCount k))) Hcs)
    as [E1 E2].
  rewrite E1, E2. now split.
Qed.

Lemma think_of_plain (m : bool) (frags : list string) :
  think_of (map (append_to m) frags) = if m then cat frags else "".
Proof.
  induction frags as [|c cs IH]; [now destruct m|].
  change (map (append_to m) (c :: cs))
    with ([append_to m c] ++ map (append_to m) cs)%list.
  rewrite think_of_app, IH. destruct m; cbn; now rewrite ?app_nil_r.
Qed.

Lemma summary_of_plain (m : bool) (frags : list string) :
  summary_of (map (append_to m) frags) = if m then "" else cat frags.
Proof.
  induction frags as [|c cs IH]; [now destruct m|].
  change (map (append_to m) (c :: cs))
    with ([append_to m c] ++ map (append_to m) cs)%list.
  rewrite summary_of_app, IH. destruct m; cbn; now rewrite ?app_nil_r.
Qed.

Lemma classified_plain (m : bool) (frags : list string) :
  classified (map (append_to m) frags) = cat frags.
Proof.
  induction frags as [|c cs IH]; [reflexivity|].
  change (map (append_to m) (c :: cs))
    with ([append_to m c] ++ map (append_to m) cs)%list.
  rewrite classified_app, IH. destruct m; cbn; now rewrite ?app_nil_r.
Qed.

(** The fragments of a marker-free text are marker-free. *)
Lemma marker_free_cat (frags : list string) :
  marker_free (cat frags) -> Forall marker_free frags.
Proof.
  induction frags as [|c cs IH]; intros [Ho Hc]; constructor.
  - split; eapply includes_left; eassumption.
  - apply IH. split; eapply includes_right; eassumption.
Qed.

Lemma marker_free_left (a b : string) : marker_free (a ++ b) -> marker_free a.
Proof. intros [Ho Hc]. split; eapply includes_left; eassumption. Qed.

Lemma marker_free_right (a b : string) : marker_free (a ++ b) -> marker_free b.
Proof. intros [Ho Hc]. split; eapply includes_right; eassumption. Qed.

(** * The result panel on a stored text *)

Lemma panel_plain (s : string) :
  JS.includes open_marker s && JS.includes close_marker s = false ->
  resultPanelSplit s = Some (mkSplit (Some "") s false).
Proof.
  intros H. unfold resultPanelSplit. rewrite or_else_empty. now rewrite H.
Qed.

Lemma panel_marked (pre mid post : string) :
  JS.includes open_marker pre = false ->
  marker_free mid -> marker_free post ->
  resultPanelSplit (pre ++ open_marker ++ mid ++ close_marker ++ post) =
  Some (mkSplit (Some mid) (pre ++ post) true).
Proof.
  intros Hp [Hmo Hmc] [Hpo Hpc]. unfold resultPanelSplit.
  rewrite or_else_empty, includes_here.
  assert (E : JS.includes close_marker
                (pre ++ open_marker ++ mid ++ close_marker ++ post) = true).
  { apply includes_spec. exists (pre ++ open_marker ++ mid), post.
    now rewrite !app_assoc. }
  rewrite E, split_open by (try apply open_around_close; assumption).
  reduce. rewrite split_close by assumption. reduce.
  now rewrite or_else_empty.
Qed.

(** The render never throws on [rest.split]. *)
Lemma panel_total (s : string) : resultPanelSplit s <> None.
Proof.
  unfold resultPanelSplit. rewrite or_else_empty.
  destruct (JS.includes open_marker s) eqn:Ho; [|discriminate].
  destruct (JS.includes close_marker s); [|discriminate].
  destruct (split_second open_marker s) as [p Hp]; [discriminate|assumption|].
  cbn [andb]. now rewrite Hp.
Qed.

(** * The claims *)

(** C8.  A text that contains neither marker literal is classified as an
    empty think text and an answer equal to the text, by the listener fed
    with any fragments spelling it and by the result panel alike. *)
Theorem no_markers_no_split (frags : list string) :
  marker_free (cat frags) ->
  thinkText (streamed frags) = "" /\
  summaryText (streamed frags) = cat frags /\
  resultPanelSplit (cat frags) = Some (mkSplit (Some "") (cat frags) false).
Proof.
  intros H. destruct (streamed_spec frags) as (E1 & E2 & _).
  pose proof (marker_free_cat _ H) as F.
  destruct (feed_plain frags (mkClosure false 0) F) as [_ L].
  rewrite E1, E2, L, think_of_plain, summary_of_plain.
  split; [reflexivity|]. split; [reflexivity|].
  apply panel_plain. destruct H as [Ho _]. now rewrite Ho.
Qed.

Lemma no_markers_no_split_witness :
  marker_free (cat ["plain "; "text"]) /\
  thinkText (streamed ["plain "; "text"]) = "" /\
  summaryText (streamed ["plain "; "text"]) = "plain text".
Proof.
  assert (H : marker_free (cat ["plain "; "text"])) by (split; reflexivity).
  split; [exact H|].
  destruct (no_markers_no_split ["plain "; "text"] H) as (E1 & E2 & _).
  split; [exact E1|exact E2].
Defined.

(** C6, as the listener has it.  When one fragment holds the open marker,
    whole and once, and no fragment before or after it holds a whole marker,
    the stream ends in think mode: the think buffer holds all the text after
    the open marker, the answer buffer the text before it, the think panel
    is flagged as still thinking and no error is set.  The fragments
    ["<think>"; "still reasoning"] are the instance with nothing before the
    marker. *)
Theorem open_without_close
  (before : list string) (a b : string) (after : list string) :
  Forall marker_free before ->
  JS.includes open_marker a = false ->
  marker_free b ->
  Forall marker_free after ->
  let frags := (before ++ (a ++ open_marker ++ b)%string :: after)%list in
  stream_mode frags = true /\
  isThinking (streamed frags) = true /\
  error (streamed frags) = "" /\
  thinkText (streamed frags) = b ++ cat after /\
  summaryText (streamed frags) = cat before ++ a.
Proof.
  intros Hb Ha Hbb Haft frags.
  destruct (streamed_spec frags) as (E1 & E2 & E3 & E4).
  rewrite E1, E2, E3, E4. unfold stream_mode, frags.
  rewrite feed_app, feed_cons. cbn [fst snd].
  destruct (feed_plain before (mkClosure false 0) Hb) as [M L].
  rewrite L, (chunk_open _ a b Ha Hbb). cbn [fst snd].
  set (k1 := mkClosure true _).
  destruct (feed_plain after k1 Haft) as [M' L']. rewrite M', L'.
  cbn [internalThinkMode k1].
  rewrite !think_of_app, !summary_of_app, think_of_plain, summary_of_plain.
  rewrite think_of_plain, summary_of_plain.
  repeat split.
  - destruct a; cbn; now rewrite ?app_nil_r.
  - destruct a; cbn; now rewrite ?app_nil_r.
Qed.

Lemma open_without_close_witness :
  stream_mode ["<think>"; "still reasoning"] = true /\
  isThinking (streamed ["<think>"; "still reasoning"]) = true /\
  error (streamed ["<think>"; "still reasoning"]) = "" /\
  thinkText (streamed ["<think>"; "still reasoning"]) = "still reasoning" /\
  summaryText (streamed ["<think>"; "still reasoning"]) = "".
Proof.
  apply (open_without_close [] "" "" ["still reasoning"]).
  - constructor.
  - reflexivity.
  - split; reflexivity.
  - repeat constructor.
Defined.

(** C6 as stated fails: an open marker that arrives in two pieces is in the
    stream, no close marker is, and the stream ends in normal mode with the
    marker in the answer buffer. *)
Lemma open_without_close_counterexample :
  JS.includes open_marker (cat ["<th"; "ink>x"]) = true /\
  JS.includes close_marker (cat ["<th"; "ink>x"]) = false /\
  stream_mode ["<th"; "ink>x"] = false /\
  thinkText (streamed ["<th"; "ink>x"]) = "" /\
  summaryText (streamed ["<th"; "ink>x"]) = "<think>x".
Proof. repeat split; reflexivity. Qed.

Lemma drops_app (l1 l2 : list update) (u : ui) :
  drops u (l1 ++ l2) = drops u l1 + drops (apply_updates u l1) l2.
Proof.
  revert u; induction l1 as [|x l1 IH]; intros u; [reflexivity|].
  simpl. rewrite IH. unfold apply_updates. simpl. lia.
Qed.

Lemma drops_both (u : ui) (a b c : string) :
  drops u (before_open a ++
           [SetIsThinking true; SetShowThink true;
            SetIsThinking false; SetShowThink false;
            AppendThinkText (Some b); AppendSummaryText (Some c)]) = 1.
Proof. destruct a; cbn; destruct (isThinking u); reflexivity. Qed.

(** The two halves of a marker cut in two hold no whole marker. *)
Lemma halves_marker_free (a m1 m2 b : string) :
  m1 ++ m2 = open_marker \/ m1 ++ m2 = close_marker ->
  m1 <> "" -> m2 <> "" ->
  marker_free a -> marker_free b ->
  marker_free (a ++ m1) /\ marker_free (m2 ++ b).
Proof.
  intros Hm H1 H2 [Hao Hac] [Hbo Hbc].
  assert (T : mem ">" m1 = false).
  { destruct Hm as [Hm|Hm].
    - now apply (proper_prefix_mem ">" "<think" m1 m2).
    - now apply (proper_prefix_mem ">" "</think" m1 m2). }
  assert (Hd : mem "<" m2 = false).
  { destruct Hm as [Hm|Hm].
    - now apply (proper_suffix_mem "<" "think>" m1 m2).
    - now apply (proper_suffix_mem "<" "/think>" m1 m2). }
  split; split.
  - destruct (JS.includes open_marker (a ++ m1)) eqn:E; [|reflexivity].
    apply (includes_no_tail ">" "<think") in E; [|assumption].
    unfold open_marker in Hao. simpl in E. congruence.
  - destruct (JS.includes close_marker (a ++ m1)) eqn:E; [|reflexivity].
    apply (includes_no_tail ">" "</think") in E; [|assumption].
    unfold close_marker in Hac. simpl in E. congruence.
  - destruct (JS.includes open_marker (m2 ++ b)) eqn:E; [|reflexivity].
    apply (includes_no_head "<" "think>") in E; [|assumption].
    unfold open_marker in Hbo. congruence.
  - destruct (JS.includes close_marker (m2 ++ b)) eqn:E; [|reflexivity].
    apply (includes_no_head "<" "/think>") in E; [|assumption].
    unfold close_marker in Hbc. congruence.
Qed.

Lemma classified_before_open (a : string) (l : list update) :
  classified (before_open a ++ l) = a ++ classified l.
Proof.
  rewrite classified_app. f_equal. destruct a; cbn; now rewrite ?app_nil_r.
Qed.

Lemma chunk_classified (k : closure) (f t : string) :
  shape f t -> classified (snd (fst (onSummaryChunk k f))) = t.
Proof.
  intros H. destruct H.
  - rewrite chunk_plain by now split. unfold append_to.
    destruct (internalThinkMode k); cbn; now rewrite app_nil_r.
  - rewrite chunk_open by (try split; assumption). cbn [fst snd].
    rewrite classified_before_open. cbn. now rewrite app_nil_r.
  - rewrite chunk_close by (split; assumption). cbn.
    now rewrite app_nil_r.
  - rewrite chunk_both by (try split; assumption). cbn [fst snd].
    rewrite classified_before_open. cbn. now rewrite app_nil_r.
Qed.

Lemma feed_classified (frags texts : list string) :
  Forall2 shape frags texts ->
  forall k, classified (snd (feed k frags)) = cat texts.
Proof.
  induction 1 as [|f t fs ts Hf _ IH]; intros k; [reflexivity|].
  rewrite feed_cons. cbn [snd]. rewrite classified_app, IH.
  now rewrite (chunk_classified k f t Hf).
Qed.

Lemma Forall2_firstn {A B : Type} (R : A -> B -> Prop) (n : nat)
  (l1 : list A) (l2 : list B) :
  Forall2 R l1 l2 -> Forall2 R (firstn n l1) (firstn n l2).
Proof.
  intros H. revert n. induction H; intros [|n]; simpl; constructor; auto.
Qed.

(** C3, as the code has it.  Take a fragment sequence in which no fragment
    holds the same marker twice nor a close marker before an open marker.
    After every prefix of it, the texts appended to the think and answer
    buffers, read in the order they were appended, spell the input consumed
    so far with every marker that lies whole inside a fragment removed, and
    with nothing else added or dropped; the two buffers are the think pieces
    and the answer pieces of that sequence. *)
Theorem classified_invariant (frags texts : list string) (n : nat) :
  Forall2 shape frags texts ->
  let log := snd (feed (mkClosure false 0) (firstn n frags)) in
  classified log = cat (firstn n texts) /\
  thinkText (streamed (firstn n frags)) = think_of log /\
  summaryText (streamed (firstn n frags)) = summary_of log.
Proof.
  intros H log. destruct (streamed_spec (firstn n frags)) as (E1 & E2 & _).
  repeat split; try assumption.
  apply feed_classified. now apply Forall2_firstn.
Qed.

Lemma classified_invariant_witness :
  classified
    (snd (feed (mkClosure false 0) ["Hello <think>deep "; "thou<th"])) =
  "Hello deep thou<th".
Proof.
  apply (classified_invariant
           ["Hello <think>deep "; "thou<th"; "ink>ghts</think>world"]
           ["Hello deep "; "thou<th"; "ink>ghtsworld"] 2).
  constructor; [|constructor; [|constructor; [|constructor]]].
  - apply (shape_open "Hello " "deep "); reflexivity.
  - apply shape_plain; reflexivity.
  - apply (shape_close "ink>ghts" "world"); reflexivity.
Defined.

(** C3 as stated fails.  When the markers arrive cut in two, both have
    appeared in the input and neither is removed.  And of a fragment that
    holds the close marker twice, the listener keeps the text up to the
    second one and drops the rest. *)
Lemma classified_invariant_counterexample :
  let cut4 := ["Hello <th"; "ink>deep "; "thoughts</thi"; "nk>world"] in
  let twice := ["<think>a</think>b</think>c"] in
  classified (snd (feed (mkClosure false 0) cut4)) =
    "Hello <think>deep thoughts</think>world" /\
  thinkText (streamed twice) = "a" /\
  summaryText (streamed twice) = "b" /\
  classified (snd (feed (mkClosure false 0) twice)) = "ab" /\
  mem "c" (cat twice) = true.
Proof. repeat split; reflexivity. Qed.

(** C9.  When the configured API key is absent, [handleGenerate] makes no
    call to the AI service: the chunk listener is not registered and no
    generation request is dispatched.  If a session is open, the window is
    left not generating, with no result and with the message that asks for
    the key as its error. *)
Theorem missing_api_key (s : session) (cfg : config) (be : backend) (u : ui) :
  JS.truthy (aiApiKey cfg) = false ->
  snd (handleGenerate s cfg be) = [] /\
  (sessionId s <> "" ->
   let u' := apply_updates u (fst (handleGenerate s cfg be)) in
   isGenerating u' = false /\
   error u' = missing_key_message /\
   result u' = None).
Proof.
  intros H. unfold handleGenerate. rewrite H.
  destruct (sessionId s) as [|c sid]; cbn; split; try reflexivity.
  - intros []. reflexivity.
  - intros _. repeat split.
Qed.

Lemma missing_api_key_witness :
  snd (handleGenerate (mkSession "wxid_1" "Ann" 7 "")
         (mkConfig (Some "") (Some "zhipu") None None None)
         (mkBackend ["<think>x"] true None None)) = [] /\
  error
    (apply_updates initial_ui
       (fst (handleGenerate (mkSession "wxid_1" "Ann" 7 "")
               (mkConfig (Some "") (Some "zhipu") None None None)
               (mkBackend ["<think>x"] true None None)))) =
  missing_key_message.
Proof.
  destruct (missing_api_key (mkSession "wxid_1" "Ann" 7 "")
              (mkConfig (Some "") (Some "zhipu") None None None)
              (mkBackend ["<think>x"] true None None) initial_ui eq_refl)
    as [E1 E2].
  split; [exact E1|]. apply E2. discriminate.
Defined.

(** * Counting occurrences *)

Lemma prefix_grow (m x y : string) :
  prefix m x = true -> prefix m (x ++ y) = true.
Proof.
  intros H. apply prefix_spec in H as [r ->]. apply prefix_spec.
  exists (r ++ y). now rewrite app_assoc.
Qed.

Lemma occurrences_app (m x y : string) :
  m <> "" ->
  JS.occurrences m x + JS.occurrences m y <= JS.occurrences m (x ++ y).
Proof.
  intros Hm. induction x as [|c x IH].
  - destruct m; [congruence|]. simpl. lia.
  - change (String c x ++ y) with (String c (x ++ y)).
    cbn [JS.occurrences].
    destruct (prefix m (String c x)) eqn:E.
    + apply (prefix_grow _ _ y) in E.
      change (String c x ++ y) with (String c (x ++ y)) in E.
      rewrite E. lia.
    + destruct (prefix m (String c (x ++ y))); lia.
Qed.

Lemma occurrences_pos (m s : string) :
  JS.includes m s = true -> 1 <= JS.occurrences m s.
Proof.
  induction s as [|c s IH]; cbn [JS.includes JS.occurrences]; intros H.
  - rewrite orb_false_r in H. rewrite H. lia.
  - apply orb_true_iff in H as [H|H]; [rewrite H; lia|].
    specialize (IH H). lia.
Qed.

Lemma occurrences_around (m u v : string) :
  m <> "" ->
  JS.occurrences m u + 1 + JS.occurrences m v
  <= JS.occurrences m (u ++ m ++ v).
Proof.
  intros Hm. pose proof (occurrences_app m u (m ++ v) Hm) as H1.
  assert (H2 : 1 + JS.occurrences m v <= JS.occurrences m (m ++ v)).
  { destruct m as [|c m']; [congruence|].
    change (String c m' ++ v) with (String c (m' ++ v)).
    cbn [JS.occurrences].
    change (String c (m' ++ v)) with (String c m' ++ v) at 1.
    rewrite prefix_app.
    pose proof (occurrences_app (String c m') m' v Hm). lia. }
  lia.
Qed.

Lemma occurrences_none (m s : string) :
  JS.occurrences m s = 0 -> JS.includes m s = false.
Proof.
  intros H. destruct (JS.includes m s) eqn:E; [|reflexivity].
  apply occurrences_pos in E. lia.
Qed.

Lemma open_nonempty : open_marker <> "".
Proof. discriminate. Qed.

Lemma close_nonempty : close_marker <> "".
Proof. discriminate. Qed.

(** A text that holds each marker at most once, the open marker first, is
    one think block between two marker-free texts. *)
Lemma single_pair (text : string) :
  JS.occurrences open_marker text <= 1 ->
  JS.occurrences close_marker text <= 1 ->
  (forall i j, JS.indexOf open_marker text = Some i ->
               JS.indexOf close_marker text = Some j -> i < j) ->
  JS.includes open_marker text = true ->
  JS.includes close_marker text = true ->
  exists pre mid post,
    text = pre ++ open_marker ++ mid ++ close_marker ++ post /\
    marker_free pre /\ marker_free mid /\ marker_free post.
Proof.
  intros No Nc Hord Io Ic.
  destruct (cut_some _ _ Io) as [pre [rest Co]].
  destruct (cut_some _ _ Ic) as [u [v Cc]].
  pose proof (cut_before _ _ _ _ open_nonempty Co) as Hpre.
  pose proof (cut_before _ _ _ _ close_nonempty Cc) as Hu.
  assert (Hlt : String.length pre < String.length u).
  { apply Hord; rewrite indexOf_cut; [rewrite Co|rewrite Cc]; reflexivity. }
  apply cut_spec in Co, Cc.
  assert (Hrest : JS.includes open_marker rest = false).
  { apply occurrences_none.
    pose proof (occurrences_around open_marker pre rest open_nonempty).
    rewrite <- Co in H. lia. }
  assert (Hv : JS.includes close_marker v = false).
  { apply occurrences_none.
    pose proof (occurrences_around close_marker u v close_nonempty).
    rewrite <- Cc in H. lia. }
  assert (E : pre ++ open_marker ++ rest = u ++ close_marker ++ v)
    by congruence.
  destruct (app_eq_app_le _ _ _ _ E ltac:(lia)) as [l [El E2]].
  assert (Hl : exists mid, l = open_marker ++ mid).
  { destruct (app_eq_app _ _ _ _ E2) as [l2 [[E3 E4]|[E3 E4]]]; [eauto|].
    destruct l2 as [|z l2].
    - exists "". rewrite app_nil_r in *. congruence.
    - exfalso. destruct l as [|a l].
      + subst u. rewrite app_nil_r in Hlt. lia.
      + unfold open_marker, close_marker in *. simpl in E3, E4.
        injection E3 as _ E3. injection E4 as <- _.
        assert (M : mem "<" "think>" = true)
          by (rewrite E3; apply mem_inside).
        discriminate M. }
  destruct Hl as [mid ->]. rewrite app_assoc in E2.
  apply app_inv_head in E2. subst u rest.
  exists pre, mid, v. split; [assumption|].
  split; [|split]; split; try assumption.
  - eapply includes_left; eassumption.
  - eapply includes_left; eassumption.
  - eapply includes_right, includes_right. eassumption.
  - eapply includes_right, includes_right. eassumption.
Qed.

Lemma cut_close_after_open (pre rest x a : string) :
  JS.includes close_marker pre = false ->
  JS.cut close_marker rest = Some (x, a) ->
  JS.cut close_marker (pre ++ open_marker ++ rest) =
  Some (pre ++ open_marker ++ x, a).
Proof.
  intros Hpre C. pose proof (cut_before _ _ _ _ close_nonempty C) as Hx.
  apply cut_spec in C. subst rest.
  replace (pre ++ open_marker ++ x ++ close_marker ++ a)
    with ((pre ++ open_marker ++ x) ++ close_marker ++ a)
    by now rewrite !app_assoc.
  apply close_cut. now apply close_around_open.
Qed.

(** The copy button on a text whose first close marker is cut out. *)
Lemma copy_between (text before after : string) :
  JS.includes open_marker text = true ->
  JS.cut close_marker text = Some (before, after) ->
  exists copied rest,
    after = copied ++ rest /\
    JS.includes close_marker copied = false /\
    (rest = "" \/ exists r, rest = close_marker ++ r) /\
    copyContent text = Some copied.
Proof.
  intros Io C.
  assert (Ht : JS.truthy (Some text) = true).
  { destruct text; [discriminate Io|reflexivity]. }
  assert (Ic : JS.includes close_marker text = true).
  { destruct (JS.includes close_marker text) eqn:E; [reflexivity|].
    apply cut_none in E. congruence. }
  unfold copyContent. rewrite Ht, Io, Ic.
  rewrite (split_some _ _ _ _ close_nonempty C). reduce.
  destruct (JS.cut close_marker after) as [[b' a']|] eqn:C'.
  - rewrite (split_some _ _ _ _ close_nonempty C').
    pose proof (cut_before _ _ _ _ close_nonempty C') as Hb'.
    apply cut_spec in C'. exists b', (close_marker ++ a').
    rewrite or_else_empty. repeat split; eauto.
  - apply cut_none in C'. rewrite (split_none _ _ close_nonempty C').
    exists after, "". rewrite or_else_empty, app_nil_r. repeat split; auto.
Qed.

(** * Streams that cut no marker in two *)

Lemma boundaries_head (off : nat) (fs : list string) :
  In off (boundaries off fs).
Proof. destruct fs; simpl; auto. Qed.

Lemma boundaries_shift (d : nat) (fs : list string) (off q : nat) :
  In q (boundaries off fs) -> In (d + q) (boundaries (d + off) fs).
Proof.
  revert off; induction fs as [|f fs IH]; intros off; simpl.
  - intros [<-|[]]. auto.
  - intros [<-|H]; [auto|]. right. rewrite <- Nat.add_assoc. now apply IH.
Qed.

Lemma boundaries_cons (f : string) (fs : list string) (p : nat) :
  In p (boundaries 0 fs) ->
  In (String.length f + p) (boundaries 0 (f :: fs)).
Proof.
  intros H. simpl. right.
  apply (boundaries_shift (String.length f)) in H.
  now rewrite Nat.add_0_r in H.
Qed.

Lemma boundaries_first (f : string) (fs : list string) :
  In (String.length f) (boundaries 0 (f :: fs)).
Proof. simpl. right. apply boundaries_head. Qed.

Lemma length_open : String.length open_marker = 7.
Proof. reflexivity. Qed.

Lemma length_close : String.length close_marker = 8.
Proof. reflexivity. Qed.

(** What is left of a stream once its close marker has gone by. *)
Lemma after_phase (frags : list string) (k : closure) :
  internalThinkMode k = false ->
  marker_free (cat frags) ->
  internalThinkMode (fst (feed k frags)) = false /\
  think_of (snd (feed k frags)) = "" /\
  summary_of (snd (feed k frags)) = cat frags.
Proof.
  intros Hk H. destruct (feed_plain frags k (marker_free_cat _ H)) as [M L].
  rewrite M, L, think_of_plain, summary_of_plain, Hk. auto.
Qed.

(** A stream in think mode, up to and past its close marker. *)
Lemma think_phase (post : string) (frags : list string) :
  marker_free post ->
  forall (mid : string) (k : closure),
  internalThinkMode k = true ->
  cat frags = mid ++ close_marker ++ post ->
  marker_free mid ->
  (forall p, In p (boundaries 0 frags) ->
             ~ (String.length mid < p < String.length mid + 8)) ->
  internalThinkMode (fst (feed k frags)) = false /\
  think_of (snd (feed k frags)) = mid /\
  summary_of (snd (feed k frags)) = post.
Proof.
  intros Hpost. induction frags as [|f fs IH]; intros mid k Hk E Hmid Hb.
  - apply (f_equal String.length) in E.
    rewrite !length_app, length_close in E. simpl in E. lia.
  - cbn [cat] in E. pose proof (Hb _ (boundaries_first f fs)) as Hf.
    destruct (Nat.le_gt_cases (String.length f) (String.length mid))
      as [Hle|Hgt].
    + destruct (app_eq_app_le _ _ _ _ E Hle) as [l [-> E2]].
      rewrite feed_cons, (chunk_plain k f (marker_free_left _ _ Hmid)).
      cbn [fst snd]. rewrite Hk.
      destruct (IH l (mkClosure true (S (chunkCount k))) eq_refl E2
                  (marker_free_right _ _ Hmid)) as (M & T & S).
      { intros p Hp. specialize (Hb _ (boundaries_cons f fs p Hp)).
        rewrite length_app in Hb. lia. }
      rewrite M, think_of_app, summary_of_app, T, S.
      repeat split. cbn. now rewrite app_nil_r.
    + assert (Hge : String.length (mid ++ close_marker) <= String.length f)
        by (rewrite length_app, length_close; lia).
      rewrite <- app_assoc in E. symmetry in E.
      destruct (app_eq_app_le _ _ _ _ E Hge) as [l [-> E2]].
      subst post. rewrite app_assoc.
      rewrite feed_cons,
        (chunk_close k mid l Hmid (marker_free_left _ _ Hpost)).
      cbn [fst snd].
      destruct (after_phase fs (mkClosure false (S (chunkCount k))) eq_refl
                  (marker_free_right _ _ Hpost)) as (M & T & S).
      rewrite M, think_of_app, summary_of_app, T, S.
      repeat split; cbn; now rewrite !app_nil_r.
Qed.

(** A stream in normal mode that holds one think block. *)
Lemma normal_phase (mid post : string) (frags : list string) :
  marker_free mid -> marker_free post ->
  forall (pre : string) (k : closure),
  internalThinkMode k = false ->
  cat frags = pre ++ open_marker ++ mid ++ close_marker ++ post ->
  marker_free pre ->
  (forall p, In p (boundaries 0 frags) ->
             ~ (String.length pre < p < String.length pre + 7) /\
             ~ (String.length pre + 7 + String.length mid < p
                < String.length pre + 7 + String.length mid + 8)) ->
  internalThinkMode (fst (feed k frags)) = false /\
  think_of (snd (feed k frags)) = mid /\
  summary_of (snd (feed k frags)) = pre ++ post.
Proof.
  intros Hmid Hpost.
  induction frags as [|f fs IH]; intros pre k Hk E Hpre Hb.
  - apply (f_equal String.length) in E.
    rewrite !length_app, length_open in E. simpl in E. lia.
  - cbn [cat] in E. pose proof (Hb _ (boundaries_first f fs)) as [Hf1 Hf2].
    destruct (Nat.le_gt_cases (String.length f) (String.length pre))
      as [Hle|Hgt].
    + (* the fragment ends before the open marker *)
      destruct (app_eq_app_le _ _ _ _ E Hle) as [l [-> E2]].
      rewrite feed_cons, (chunk_plain k f (marker_free_left _ _ Hpre)).
      cbn [fst snd]. rewrite Hk.
      destruct (IH l (mkClosure false (S (chunkCount k))) eq_refl E2
                  (marker_free_right _ _ Hpre)) as (M & T & S).
      { intros p Hp. specialize (Hb _ (boundaries_cons f fs p Hp)).
        rewrite length_app in Hb. lia. }
      rewrite M, think_of_app, summary_of_app, T, S.
      repeat split. cbn. now rewrite app_nil_r, app_assoc.
    + (* the fragment holds the open marker *)
      assert (Hge : String.length (pre ++ open_marker) <= String.length f)
        by (rewrite length_app, length_open; lia).
      rewrite <- app_assoc in E. symmetry in E.
      destruct (app_eq_app_le _ _ _ _ E Hge) as [l [Ef E2]].
      assert (Hl : String.length f
                   = String.length pre + 7 + String.length l).
      { rewrite Ef, !length_app, length_open. lia. }
      destruct (Nat.le_gt_cases (String.length l) (String.length mid))
        as [Hle2|Hgt2].
      * (* and ends before the close marker *)
        symmetry in E2.
        destruct (app_eq_app_le _ _ _ _ E2 Hle2) as [m2 [Em E3]].
        subst f mid. rewrite app_assoc.
        rewrite feed_cons,
          (chunk_open k pre l (proj1 Hpre) (marker_free_left _ _ Hmid)).
        cbn [fst snd].
        destruct (think_phase post fs Hpost m2
                    (mkClosure true (S (chunkCount k))) eq_refl E3
                    (marker_free_right _ _ Hmid)) as (M & T & S).
        { intros p Hp. specialize (Hb _ (boundaries_cons _ fs p Hp)).
          rewrite ?length_app, ?length_open in Hb. lia. }
        rewrite M, !think_of_app, !summary_of_app, T, S.
        repeat split; destruct pre; cbn;
          now rewrite ?app_nil_r, ?app_assoc.
      * (* and the close marker too *)
        assert (Hge2 : String.length (mid ++ close_marker)
                       <= String.length l)
          by (rewrite length_app, length_close; lia).
        rewrite <- app_assoc in E2.
        destruct (app_eq_app_le _ _ _ _ E2 Hge2) as [l3 [El E3]].
        subst f l post. rewrite !app_assoc.
        rewrite feed_cons,
          (chunk_both k pre mid l3 (proj1 Hpre) Hmid
             (marker_free_left _ _ Hpost)).
        cbn [fst snd].
        destruct (after_phase fs (mkClosure false (S (chunkCount k))) eq_refl
                    (marker_free_right _ _ Hpost)) as (M & T & S).
        rewrite M, !think_of_app, !summary_of_app, T, S.
        repeat split; destruct pre; cbn;
          now rewrite ?app_nil_r, ?app_assoc.
Qed.

Lemma unsplit_spec (lo len : nat) (frags : list string) :
  unsplit lo len frags = true ->
  forall p, In p (boundaries 0 frags) -> ~ (lo < p < lo + len).
Proof.
  unfold unsplit. rewrite forallb_forall. intros H p Hp [H1 H2].
  specialize (H p Hp). apply negb_true_iff, andb_false_iff in H.
  destruct H as [H|H]; apply Nat.ltb_ge in H; lia.
Qed.

(** C1, as the code has it.  Take a text that holds no marker, or that is
    one think block between marker-free texts, and fragments that spell it
    with no fragment boundary strictly inside a marker.  The listener fed
    with the fragments builds the think text and the answer that the result
    panel computes from the whole text. *)
Theorem stream_equals_panel (frags : list string) (pre mid post : string) :
  marker_free (cat frags) \/
  (cat frags = pre ++ open_marker ++ mid ++ close_marker ++ post /\
   marker_free pre /\ marker_free mid /\ marker_free post /\
   unsplit (String.length pre) (String.length open_marker) frags = true /\
   unsplit (String.length pre + String.length open_marker + String.length mid)
           (String.length close_marker) frags = true) ->
  exists v,
    resultPanelSplit (cat frags) = Some v /\
    thinkContent v = Some (thinkText (streamed frags)) /\
    mainContent v = summaryText (streamed frags).
Proof.
  intros [H|(E & Hpre & Hmid & Hpost & U1 & U2)].
  - destruct (streamed_spec frags) as (E1 & E2 & _). rewrite E1, E2.
    destruct (after_phase frags (mkClosure false 0) eq_refl H)
      as (_ & T & S).
    rewrite T, S. exists (mkSplit (Some "") (cat frags) false).
    split; [|split; reflexivity].
    apply panel_plain. destruct H as [Ho _]. now rewrite Ho.
  - destruct (streamed_spec frags) as (E1 & E2 & _). rewrite E1, E2.
    destruct (normal_phase mid post frags Hmid Hpost pre (mkClosure false 0)
                eq_refl E Hpre) as (_ & T & S).
    { intros p Hp. split.
      - apply (unsplit_spec _ _ _ U1 p Hp).
      - apply (unsplit_spec _ _ _ U2 p Hp). }
    rewrite T, S, E. exists (mkSplit (Some mid) (pre ++ post) true).
    split; [|split; reflexivity].
    apply panel_marked; [apply Hpre|assumption|assumption].
Qed.

Lemma stream_equals_panel_witness :
  exists v,
    resultPanelSplit
      (cat ["Hello <think>deep "; "thoughts</think>"; "world"]) = Some v /\
    thinkContent v =
      Some (thinkText
              (streamed ["Hello <think>deep "; "thoughts</think>"; "world"]))
    /\
    mainContent v =
      summaryText
        (streamed ["Hello <think>deep "; "thoughts</think>"; "world"]).
Proof.
  apply (stream_equals_panel
           ["Hello <think>deep "; "thoughts</think>"; "world"]
           "Hello " "deep thoughts" "world").
  right. repeat split; reflexivity.
Defined.

(** C1 as stated fails on a partition that cuts the markers in two: the
    listener misses both and leaves the whole text in the answer, while the
    result panel splits it. *)
Lemma stream_equals_panel_counterexample :
  let frags := ["Hello <th"; "ink>deep "; "thoughts</thi"; "nk>world"] in
  resultPanelSplit (cat frags) =
    Some (mkSplit (Some "deep thoughts") "Hello world" true) /\
  thinkText (streamed frags) = "" /\
  summaryText (streamed frags) = "Hello <think>deep thoughts</think>world".
Proof. repeat split; reflexivity. Qed.

(** * Further properties of the listener *)

(** The first two parts of [split], where the separator occurs. *)
Lemma split_first_two (sep s : string) :
  sep <> "" -> JS.includes sep s = true ->
  exists b a p1 r,
    s = b ++ sep ++ a /\ a = p1 ++ r /\
    JS.includes sep b = false /\ JS.includes sep p1 = false /\
    exists ps, JS.split sep s = b :: p1 :: ps.
Proof.
  intros Hs H. destruct (cut_some _ _ H) as [b [a C]].
  pose proof (cut_before _ _ _ _ Hs C) as Hb.
  rewrite (split_some _ _ _ _ Hs C). apply cut_spec in C.
  destruct (JS.cut sep a) as [[b' a']|] eqn:C'.
  - pose proof (cut_before _ _ _ _ Hs C') as Hb'.
    rewrite (split_some _ _ _ _ Hs C'). apply cut_spec in C'.
    exists b, a, b', (sep ++ a'). eauto 10.
  - apply cut_none in C'. rewrite (split_none _ _ Hs C').
    exists b, a, a, "". rewrite app_nil_r. eauto 10.
Qed.

(** X1.  The body of the chunk listener never throws, whatever the chunk:
    its [catch] is dead code.  And no update it queues appends [undefined]
    to a buffer. *)
Theorem listener_never_throws (k : closure) (chunk : string) :
  snd (onSummaryChunk k chunk) = Normal /\
  existsb appends_undefined (snd (fst (onSummaryChunk k chunk))) = false.
Proof.
  split; [apply chunk_normal|apply (chunk_log k chunk)].
Qed.

(** X2.  The result panel never throws while splitting a stored text, and
    the think text it renders is always a string, never [undefined]. *)
Theorem panel_never_throws (stored : string) :
  exists think main shown,
    resultPanelSplit stored = Some (mkSplit (Some think) main shown).
Proof.
  unfold resultPanelSplit. rewrite or_else_empty.
  destruct (JS.includes open_marker stored) eqn:Ho; [|cbn; eauto].
  destruct (JS.includes close_marker stored); [|cbn; eauto].
  destruct (split_first_two _ _ open_nonempty Ho)
    as (b & a & p1 & r & _ & _ & _ & _ & ps & E).
  rewrite E. reduce. cbn [andb].
  destruct (split_nonempty close_marker p1 close_nonempty) as [q Hq].
  unfold JS.at_ in Hq.
  destruct (JS.split close_marker p1) as [|q' qs]; [discriminate Hq|].
  cbn. eauto.
Qed.

(** X3.  A stream of chunks, whatever it holds, leaves the error, the
    result and the generating flag of the window as they were, so that the
    generating panel stays in place while chunks arrive. *)
Theorem listener_keeps_run_state (k : closure) (frags : list string) (u : ui) :
  let u' := apply_updates u (snd (feed k frags)) in
  error u' = error u /\
  result u' = result u /\
  isGenerating u' = isGenerating u /\
  showsGenerating u' = showsGenerating u.
Proof.
  intros u'.
  destruct (streaming_ui _ u (feed_streaming frags k))
    as (_ & _ & E3 & E4 & E5).
  unfold showsGenerating. fold u' in E3, E4, E5. auto.
Qed.

(** X4.  The two buffers only grow: what the window shows after more chunks
    starts with what it showed before them. *)
Theorem buffers_append_only (earlier later : list string) :
  exists t s,
    thinkText (streamed (earlier ++ later)) =
      thinkText (streamed earlier) ++ t /\
    summaryText (streamed (earlier ++ later)) =
      summaryText (streamed earlier) ++ s.
Proof.
  destruct (streamed_spec (earlier ++ later)) as (E1 & E2 & _).
  destruct (streamed_spec earlier) as (F1 & F2 & _).
  rewrite E1, E2, F1, F2, feed_app. cbn [snd].
  rewrite think_of_app, summary_of_app. eauto.
Qed.

(** Lengths of the parts a log appends. *)
Lemma classified_length_split (log : list update) :
  String.length (think_of log) + String.length (summary_of log)
  = String.length (classified log).
Proof.
  unfold think_of, summary_of, classified.
  induction (pieces log) as [|[[] t] l IH]; cbn; [reflexivity| |];
    rewrite !length_app; lia.
Qed.

Lemma chunk_length (k : closure) (chunk : string) :
  String.length (classified (snd (fst (onSummaryChunk k chunk))))
  <= String.length chunk.
Proof.
  unfold onSummaryChunk.
  destruct (JS.includes open_marker chunk) eqn:Ho.
  - destruct (split_first_two _ _ open_nonempty Ho)
      as (b & a & p1 & r & -> & -> & _ & _ & ps & E).
    rewrite E. reduce.
    assert (Hb : String.length
                   (classified
                      (if match b with "" => false | String _ _ => true end
                       then [AppendSummaryText (Some b)] else []))
                 = String.length b).
    { destruct b; cbn; now rewrite ?app_nil_r. }
    destruct (JS.includes close_marker p1) eqn:Hc.
    + destruct (split_first_two _ _ close_nonempty Hc)
        as (x & a2 & y & r2 & -> & -> & _ & _ & qs & E2).
      rewrite E2. reduce. cbn [fst snd].
      rewrite !classified_app, !length_app, Hb, or_else_empty.
      cbn. rewrite ?length_app. cbn. rewrite ?length_app. lia.
    + cbn [fst snd]. rewrite !classified_app, !length_app, Hb.
      cbn. rewrite ?length_app. cbn. rewrite ?length_app. lia.
  - reduce. destruct (JS.includes close_marker chunk) eqn:Hc.
    + destruct (split_first_two _ _ close_nonempty Hc)
        as (x & a2 & y & r2 & -> & -> & _ & _ & qs & E2).
      rewrite E2. reduce. cbn [fst snd]. rewrite or_else_empty.
      cbn. rewrite ?length_app. cbn. rewrite ?length_app. lia.
    + destruct (internalThinkMode k); cbn; rewrite app_nil_r; lia.
Qed.

(** X6.  On every stream the listener only moves characters of the input
    into the buffers: together the think text and the answer are never
    longer than the text the fragments spell. *)
Theorem listener_adds_nothing (frags : list string) :
  String.length (thinkText (streamed frags))
  + String.length (summaryText (streamed frags))
  <= String.length (cat frags).
Proof.
  destruct (streamed_spec frags) as (E1 & E2 & _).
  rewrite E1, E2, classified_length_split. clear E1 E2.
  generalize (mkClosure false 0) as k.
  induction frags as [|c cs IH]; intros k; [cbn; lia|].
  rewrite feed_cons. cbn [snd cat].
  rewrite classified_app, !length_app.
  pose proof (chunk_length k c). specialize (IH (fst (fst (onSummaryChunk k c)))).
  lia.
Qed.

(** X7.  No text that a chunk appends to either buffer holds a whole open
    marker, and no text it appends to the think buffer holds a whole close
    marker: a marker can show in a buffer only where it was put together
    from separate appends, or, for a close marker, in the answer text taken
    from before an open marker. *)
Theorem appended_text_is_clean (k : closure) (chunk : string) :
  Forall (fun p => JS.includes open_marker (snd p) = false /\
                   (fst p = true -> JS.includes close_marker (snd p) = false))
         (pieces (snd (fst (onSummaryChunk k chunk)))).
Proof.
  unfold onSummaryChunk.
  destruct (JS.includes open_marker chunk) eqn:Ho.
  - destruct (split_first_two _ _ open_nonempty Ho)
      as (b & a & p1 & r & -> & -> & Hb & Hp & ps & E).
    rewrite E. reduce.
    assert (B : Forall
                  (fun p => JS.includes open_marker (snd p) = false /\
                    (fst p = true ->
                     JS.includes close_marker (snd p) = false))
                  (pieces
                     ((if match b with "" => false | String _ _ => true end
                       then [AppendSummaryText (Some b)] else []) ++
                      [SetIsThinking true; SetShowThink true]))).
    { destruct b; cbn; repeat constructor; auto; discriminate. }
    destruct (JS.includes close_marker p1) eqn:Hc.
    + destruct (split_first_two _ _ close_nonempty Hc)
        as (x & a2 & y & r2 & E1 & E3 & Hx & Hy & qs & E2).
      rewrite E2. reduce. cbn [fst snd]. rewrite or_else_empty.
      rewrite pieces_app. apply Forall_app. split; [exact B|].
      subst p1 a2. cbn [pieces JS.to_string].
      constructor; [split; cbn [fst snd]|constructor; [split; cbn [fst snd]|constructor]].
      * eapply includes_left; eassumption.
      * auto.
      * eapply includes_left, includes_right, includes_right. eassumption.
      * discriminate.
    + cbn [fst snd]. rewrite pieces_app. apply Forall_app.
      split; [exact B|]. cbn [pieces JS.to_string].
      constructor; [split; cbn [fst snd]; auto|constructor].
  - reduce. destruct (JS.includes close_marker chunk) eqn:Hc.
    + destruct (split_first_two _ _ close_nonempty Hc)
        as (x & a2 & y & r2 & E1 & E3 & Hx & Hy & qs & E2).
      rewrite E2. reduce. cbn [fst snd]. rewrite or_else_empty.
      subst chunk a2. cbn [pieces JS.to_string].
      constructor; [split; cbn [fst snd]|constructor; [split; cbn [fst snd]|constructor]].
      * eapply includes_left; eassumption.
      * auto.
      * eapply includes_left, includes_right, includes_right. eassumption.
      * discriminate.
    + destruct (internalThinkMode k); cbn [fst snd pieces JS.to_string];
        (constructor; [split; cbn [fst snd]; auto; discriminate|constructor]).
Qed.

Lemma chunk_mode_memoryless (k1 k2 : closure) (f : string) :
  JS.includes open_marker f || JS.includes close_marker f = true ->
  internalThinkMode (fst (fst (onSummaryChunk k1 f))) =
  internalThinkMode (fst (fst (onSummaryChunk k2 f))).
Proof.
  intros H. unfold onSummaryChunk.
  destruct (JS.includes open_marker f) eqn:Ho.
  - destruct (split_second open_marker f) as [p Hp];
      [discriminate|assumption|].
    rewrite Hp. reduce. now destruct (JS.includes close_marker p).
  - cbn [orb] in H. reduce. now rewrite H.
Qed.

(** X8.  The mode of the listener has no memory beyond the last fragment
    that held a whole marker: two runs that end with the same such fragment,
    followed by the same fragments without a whole marker, are in the same
    mode, whatever they received before. *)
Theorem mode_decided_by_last_marker
  (h1 h2 : list string) (f : string) (plain : list string) :
  JS.includes open_marker f || JS.includes close_marker f = true ->
  Forall marker_free plain ->
  stream_mode (h1 ++ f :: plain) = stream_mode (h2 ++ f :: plain).
Proof.
  intros Hf Hp. unfold stream_mode. rewrite !feed_app, !feed_cons.
  cbn [fst snd].
  rewrite (proj1 (feed_plain plain _ Hp)), (proj1 (feed_plain plain _ Hp)).
  now apply chunk_mode_memoryless.
Qed.

Lemma mode_decided_by_last_marker_witness :
  stream_mode (["<think>a"; "b</think>c"] ++ "x<think>y" :: ["z"]) =
  stream_mode (["n"] ++ "x<think>y" :: ["z"]).
Proof.
  apply (mode_decided_by_last_marker _ _ "x<think>y" ["z"]).
  - reflexivity.
  - repeat constructor; reflexivity.
Defined.

Lemma drops_le_falls (log : list update) (u : ui) :
  drops u log <= List.length (filter falls log).
Proof.
  revert u; induction log as [|x log IH]; intros u; [reflexivity|].
  cbn [drops filter]. specialize (IH (apply_update u x)).
  destruct x as [| | | |[]| | | |]; cbn in *;
    destruct (isThinking u); cbn; lia.
Qed.

Lemma chunk_falls (k : closure) (chunk : string) :
  List.length (filter falls (snd (fst (onSummaryChunk k chunk)))) <= 1.
Proof.
  unfold onSummaryChunk.
  destruct (JS.includes open_marker chunk) eqn:Ho.
  - destruct (split_second open_marker chunk) as [p Hp];
      [discriminate|assumption|].
    rewrite Hp. reduce.
    destruct (JS.truthy _), (JS.includes close_marker p); cbn; lia.
  - reduce. destruct (JS.includes close_marker chunk); [cbn; lia|].
    destruct (internalThinkMode k); cbn; lia.
Qed.

(** X9.  However the markers are laid out, a run leaves think mode at most
    once per fragment received. *)
Theorem leaves_once_per_fragment (frags : list string) :
  leaves frags <= List.length frags.
Proof.
  unfold leaves.
  etransitivity; [apply drops_le_falls|].
  generalize (mkClosure false 0) as k.
  induction frags as [|c cs IH]; intros k; [reflexivity|].
  rewrite feed_cons. cbn [snd]. rewrite filter_app, List.length_app.
  pose proof (chunk_falls k c).
  specialize (IH (fst (fst (onSummaryChunk k c)))). cbn [List.length]. lia.
Qed.





(** * Further properties of [handleGenerate] *)

Lemma reset_wipes (u : ui) :
  apply_updates u reset_log = mkUI true "" "" false true None "".
Proof. reflexivity. Qed.

(** The updates of a run: the reset, the listener's log, a closing part. *)
Lemma generate_log (s : session) (cfg : config) (be : backend) :
  sessionId s <> "" ->
  exists tail,
    fst (handleGenerate s cfg be) =
      (reset_log ++
       (if JS.truthy (aiApiKey cfg)
        then snd (feed (mkClosure false 0) (chunks be)) else []) ++
       tail)%list /\
    ((exists m, JS.truthy (Some m) = true /\
                tail = [SetError m; SetIsGenerating false]) \/
     (exists r, success be = true /\ gen_result be = Some r /\
                JS.truthy (aiApiKey cfg) = true /\
                tail = [SetResult (Some r); SetIsGenerating false])).
Proof.
  intros Hs. unfold handleGenerate.
  destruct (sessionId s) as [|c sid]; [congruence|]. cbn [JS.truthy negb].
  destruct (JS.truthy (aiApiKey cfg)) eqn:K; cbn [negb].
  - destruct (feed (mkClosure false 0) (chunks be)) as [k' stream_log].
    cbn [snd]. destruct (success be); cbn [negb].
    + destruct (gen_result be) as [r|]; cbn [fst]; eexists; split;
        try reflexivity.
      * right. eauto.
      * left. eexists. split; [|reflexivity]. reflexivity.
    + cbn [fst]. eexists. split; [reflexivity|].
      left. eexists. split; [|reflexivity]. reflexivity.
  - cbn [fst]. eexists. split; [reflexivity|].
    left. eexists. split; [|reflexivity]. reflexivity.
Qed.

(** * The delete dialog *)

(** X14.  [confirmDelete] changes nothing in the window when no record is
    targeted, when the targeted id is [0] (falsy, so such a record cannot be
    deleted from the window), or when the service reports a failure; in the
    first two cases it does not call the service at all, in the last it
    calls it once and raises an alert. *)
Theorem delete_refused
  (sid : string) (del : deleteResult) (hist : historyResult) (w : window) :
  deleteTargetId w = None \/ deleteTargetId w = Some 0 \/
  del_success del = false ->
  fst (fst (confirmDelete sid del hist w)) = w /\
  (deleteTargetId w = None \/ deleteTargetId w = Some 0 ->
   confirmDelete sid del hist w = (w, [], None)) /\
  (forall id, deleteTargetId w = Some (S id) ->
   snd (fst (confirmDelete sid del hist w)) = [DeleteSummary (S id)] /\
   snd (confirmDelete sid del hist w) <> None).
Proof.
  intros H. unfold confirmDelete.
  destruct (deleteTargetId w) as [[|n]|] eqn:T.
  - split; [reflexivity|]. split; [reflexivity|].
    intros m Hm. discriminate Hm.
  - assert (Hf : del_success del = false).
    { destruct H as [H|[H|H]]; [discriminate H|discriminate H|exact H]. }
    rewrite Hf. cbn [fst snd]. split; [reflexivity|]. split.
    + intros [E|E]; discriminate E.
    + intros m Hm. injection Hm as <-. split; [reflexivity|discriminate].
  - split; [reflexivity|]. split; [reflexivity|].
    intros m Hm. discriminate Hm.
Qed.

Lemma delete_refused_witness :
  confirmDelete "wxid_1" (mkDeleteResult true None)
    (mkHistoryResult true (Some []))
    (mkWindow initial_ui [mkSummaryResult 0 "text" "zhipu" 3] true (Some 0))
  = (mkWindow initial_ui [mkSummaryResult 0 "text" "zhipu" 3] true (Some 0),
     [], None).
Proof.
  destruct (delete_refused "wxid_1" (mkDeleteResult true None)
              (mkHistoryResult true (Some []))
              (mkWindow initial_ui [mkSummaryResult 0 "text" "zhipu" 3]
                 true (Some 0)))
    as (_ & H & _).
  - right; left; reflexivity.
  - apply H. right; reflexivity.
Defined.

(** X15.  Deleting a history item through the dialog, when the service
    succeeds: the service is asked to delete that id and then for the ten
    latest records, the dialog closes and forgets its target, the history
    becomes the reloaded list if the reload answered with one, the record on
    display is dropped together with both buffers exactly when it is the one
    deleted, and no alert is raised. *)
Theorem delete_flow
  (sid : string) (id : nat) (del : deleteResult) (hist : historyResult)
  (w0 : window) :
  id <> 0 -> del_success del = true ->
  let out := confirmDelete sid del hist (handleDeleteHistory id w0) in
  let w := fst (fst out) in
  snd (fst out) = [DeleteSummary id; GetSummaryHistory sid 10] /\
  snd out = None /\
  showDeleteDialog w = false /\ deleteTargetId w = None /\
  history w =
    (if hist_success hist
     then match hist_history hist with Some h => h | None => history w0 end
     else history w0) /\
  (forall r, result (cells w0) = Some r -> r_id r = id ->
     result (cells w) = None /\
     summaryText (cells w) = "" /\ thinkText (cells w) = "") /\
  ((forall r, result (cells w0) = Some r -> r_id r <> id) ->
   cells w = cells w0).
Proof.
  intros Hid Hs. cbv zeta. unfold confirmDelete, handleDeleteHistory.
  destruct id as [|n]; [congruence|]. cbn [deleteTargetId]. rewrite Hs.
  cbn [fst snd cells showDeleteDialog deleteTargetId history].
  assert (Hc : forall v, cells (loadHistory hist v) = cells v).
  { intros v. unfold loadHistory.
    destruct (hist_success hist), (hist_history hist); reflexivity. }
  rewrite Hc. cbn [cells].
  repeat split.
  - unfold loadHistory. cbn.
    destruct (hist_success hist), (hist_history hist); reflexivity.
  - rewrite H. rewrite H0, Nat.eqb_refl. reflexivity.
  - rewrite H. rewrite H0, Nat.eqb_refl. reflexivity.
  - rewrite H. rewrite H0, Nat.eqb_refl. reflexivity.
  - intros H. destruct (result (cells w0)) as [r|] eqn:R; [|reflexivity].
    specialize (H r eq_refl). apply Nat.eqb_neq in H. now rewrite H.
Qed.

Lemma delete_flow_witness :
  let w0 :=
    mkWindow (mkUI false "answer" "think" false false
                (Some (mkSummaryResult 4 "text" "zhipu" 3)) "")
             [mkSummaryResult 4 "text" "zhipu" 3] false None in
  let out :=
    confirmDelete "wxid_1" (mkDeleteResult true None)
      (mkHistoryResult true (Some [])) (handleDeleteHistory 4 w0) in
  snd (fst out) = [DeleteSummary 4; GetSummaryHistory "wxid_1" 10] /\
  history (fst (fst out)) = [] /\
  result (cells (fst (fst out))) = None.
Proof.
  intros w0 out.
  destruct (delete_flow "wxid_1" 4 (mkDeleteResult true None)
              (mkHistoryResult true (Some [])) w0)
    as (E1 & _ & _ & _ & E5 & E6 & _); [discriminate|reflexivity|].
  split; [exact E1|]. split; [exact E5|].
  apply (E6 (mkSummaryResult 4 "text" "zhipu" 3)); reflexivity.
Defined.

(** * Markers that the listener misses, and markers out of order *)

(** C2, as the code has it.  The listener holds nothing back between
    chunks, so a marker is found only where one fragment holds it whole.  On
    every fragment sequence in which no fragment holds a whole marker, as
    when each marker of the text is cut by fragment boundaries into two
    pieces or more, the listener finds none: every fragment is appended as
    it is to the buffer of the current mode and the mode does not change, so
    that a run ends with an empty think text and the whole input, the
    characters of the cut markers included, as the answer.  The fragments
    ["Hello <th"; "ink>deep "; "thoughts</thi"; "nk>world"] are an
    instance. *)
Theorem split_marker_missed (k : closure) (frags : list string) :
  Forall marker_free frags ->
  snd (feed k frags) = map (append_to (internalThinkMode k)) frags /\
  internalThinkMode (fst (feed k frags)) = internalThinkMode k /\
  stream_mode frags = false /\
  thinkText (streamed frags) = "" /\
  summaryText (streamed frags) = cat frags /\
  (forall m, JS.includes m (cat frags) = true ->
             JS.includes m (summaryText (streamed frags)) = true).
Proof.
  intros F. destruct (feed_plain frags k F) as [M L].
  destruct (streamed_spec frags) as (E1 & E2 & _).
  destruct (feed_plain frags (mkClosure false 0) F) as [M0 L0].
  assert (S : summaryText (streamed frags) = cat frags).
  { now rewrite E2, L0, summary_of_plain. }
  split; [exact L|]. split; [exact M|]. split; [exact M0|].
  split; [now rewrite E1, L0, think_of_plain|].
  split; [exact S|]. intros m Hm. now rewrite S.
Qed.

Lemma split_marker_missed_witness :
  thinkText
    (streamed ["Hello <th"; "ink>deep "; "thoughts</thi"; "nk>world"]) = ""
  /\
  summaryText
    (streamed ["Hello <th"; "ink>deep "; "thoughts</thi"; "nk>world"])
  = "Hello <think>deep thoughts</think>world".
Proof.
  destruct (split_marker_missed (mkClosure false 0)
              ["Hello <th"; "ink>deep "; "thoughts</thi"; "nk>world"])
    as (_ & _ & _ & E1 & E2 & _).
  - repeat constructor; reflexivity.
  - split; [exact E1|exact E2].
Defined.

(** C2 as stated fails on its own example: both markers are missed and
    their characters are all in the answer buffer. *)
Lemma split_marker_missed_counterexample :
  let frags := ["Hello <th"; "ink>deep "; "thoughts</thi"; "nk>world"] in
  thinkText (streamed frags) <> "deep thoughts" /\
  summaryText (streamed frags) <> "Hello world" /\
  stream_mode (firstn 2 frags) = false /\
  summaryText (streamed frags) = "Hello <think>deep thoughts</think>world".
Proof. repeat split; try reflexivity; discriminate. Qed.

(** Past a text that holds no open marker and ends with a close marker, an
    open marker can only start after that close marker. *)
Lemma open_not_across (x rest p a : string) :
  JS.includes open_marker x = false ->
  (x ++ close_marker) ++ rest = p ++ open_marker ++ a ->
  exists l, p = (x ++ close_marker) ++ l.
Proof.
  intros Hx H.
  assert (Hxc : JS.includes open_marker (x ++ close_marker) = false).
  { rewrite <- (app_nil_r close_marker). now apply open_around_close. }
  destruct (app_eq_app _ _ _ _ H) as [l [[E1 E2]|[E1 E2]]]; [eauto|].
  destruct l as [|c0 l0]; [exists ""; now rewrite app_nil_r in *|].
  exfalso. set (l := String c0 l0) in *.
  assert (Hl : l <> "") by discriminate.
  destruct (app_eq_app _ _ _ _ E2) as [l2 [[E3 E4]|[E3 E4]]].
  - (* the open marker lies inside [x ++ close] *)
    assert (I : JS.includes open_marker (x ++ close_marker) = true).
    { apply includes_spec. exists p, l2. now rewrite E1, E3. }
    congruence.
  - (* [l] is a start of the open marker and an end of [x ++ close] *)
    destruct l2 as [|c2 l2'].
    + rewrite app_nil_r in E3.
      assert (I : JS.includes open_marker (x ++ close_marker) = true).
      { apply includes_spec. exists p, "". now rewrite app_nil_r, E3. }
      congruence.
    + assert (M1 : mem ">" l = false).
      { apply (proper_prefix_mem ">" "<think" l (String c2 l2'));
          [now rewrite <- E3|discriminate|reflexivity]. }
      assert (M2 : mem ">" l = true).
      { apply (last_char ">" p l (x ++ "</think")); [|assumption].
        rewrite app_assoc. exact E1. }
      congruence.
Qed.

(** The first part of [split] by the open marker of a text that starts with
    open-free text and a close marker holds both. *)
Lemma split_open_past_close (x rest : string) :
  JS.includes open_marker x = false ->
  exists l ps,
    JS.split open_marker (x ++ close_marker ++ rest)
    = ((x ++ close_marker) ++ l) :: ps.
Proof.
  intros Hx.
  destruct (JS.cut open_marker (x ++ close_marker ++ rest)) as [[p a]|] eqn:C.
  - rewrite (split_some _ _ _ _ open_nonempty C). apply cut_spec in C.
    rewrite <- app_assoc in C.
    destruct (open_not_across x rest p a Hx C) as [l ->]. eauto.
  - apply cut_none in C. rewrite (split_none _ _ open_nonempty C).
    exists rest, []. now rewrite app_assoc.
Qed.

(** A chunk with an open marker, marker-free text and a close marker,
    whatever follows. *)
Lemma chunk_closed (k : closure) (a b c : string) :
  JS.includes open_marker a = false -> marker_free b ->
  exists y,
    onSummaryChunk k (a ++ open_marker ++ b ++ close_marker ++ c) =
    (mkClosure false (S (chunkCount k)),
     (before_open a ++
      [SetIsThinking true; SetShowThink true;
       SetIsThinking false; SetShowThink false;
       AppendThinkText (Some b); AppendSummaryText (Some y)])%list,
     Normal).
Proof.
  intros Ha [Hbo Hbc]. unfold onSummaryChunk. rewrite includes_here.
  rewrite (split_some _ _ a (b ++ close_marker ++ c) open_nonempty)
    by now apply open_cut.
  destruct (split_open_past_close b c Hbo) as (l & ps & ->).
  reduce. rewrite app_assoc, includes_here.
  rewrite (split_some _ _ b l close_nonempty) by now apply close_cut.
  destruct (split_nonempty close_marker l close_nonempty) as [y Hy].
  unfold JS.at_ in Hy.
  destruct (JS.split close_marker l) as [|y' ys]; [discriminate Hy|].
  reduce. exists (JS.or_else (Some y') ""). now destruct a.
Qed.

(** C4, as the code has it.  The listener keeps no record of a close marker
    it has matched.  Whatever came before, a fragment that holds the open
    marker once, with no marker in the text after it, puts the listener in
    think mode again, with the text before the marker appended to the answer
    buffer and the text after it to the think buffer; and a fragment in
    which the open marker is followed by marker-free text and a close
    marker, whatever comes after that, adds one more passage from thinking
    to normal. *)
Theorem reenters_thinking (history : list string) (a b c : string) :
  JS.includes open_marker a = false ->
  marker_free b ->
  let opened := (history ++ [(a ++ open_marker ++ b)%string])%list in
  let closed :=
    (history ++ [(a ++ open_marker ++ b ++ close_marker ++ c)%string])%list in
  stream_mode opened = true /\
  thinkText (streamed opened) = thinkText (streamed history) ++ b /\
  summaryText (streamed opened) = summaryText (streamed history) ++ a /\
  stream_mode closed = false /\
  leaves closed = S (leaves history).
Proof.
  intros Ha Hb opened closed.
  destruct (streamed_spec opened) as (E1 & E2 & _).
  destruct (streamed_spec history) as (F1 & F2 & _).
  rewrite E1, E2, F1, F2. unfold stream_mode, leaves, opened, closed.
  rewrite !feed_app, !feed_cons, (chunk_open _ a b Ha Hb).
  destruct (chunk_closed (fst (feed (mkClosure false 0) history)) a b c Ha Hb)
    as [y ->].
  cbn [fst snd feed].
  rewrite !List.app_nil_r, think_of_app, summary_of_app.
  repeat split.
  - f_equal. destruct a; cbn; now rewrite ?app_nil_r.
  - f_equal. destruct a; cbn; now rewrite ?app_nil_r.
  - rewrite drops_app, drops_both. lia.
Qed.

Lemma reenters_thinking_witness :
  stream_mode ["<think>a</think>b"] = false /\
  stream_mode ["<think>a</think>b"; "c<think>d"] = true /\
  thinkText (streamed ["<think>a</think>b"; "c<think>d"]) = "ad" /\
  summaryText (streamed ["<think>a</think>b"; "c<think>d"]) = "bc" /\
  leaves ["<think>a</think>b"; "c<think>d</think>e<think>f"] = 2.
Proof.
  split; [reflexivity|].
  destruct (reenters_thinking ["<think>a</think>b"] "c" "d" "e<think>f")
    as (E1 & E2 & E3 & _ & E5);
    [reflexivity|split; reflexivity|].
  split; [exact E1|]. split; [exact E2|]. split; [exact E3|exact E5].
Defined.

(** C4 as stated fails: after a close marker was matched and the mode went
    back to normal, a later open marker starts a second think block, and a
    later close marker ends it, a second passage from thinking to normal. *)
Lemma reenters_thinking_counterexample :
  leaves ["<think>a</think>b"] = 1 /\
  stream_mode ["<think>a</think>b"] = false /\
  stream_mode ["<think>a</think>b"; "<think>c"] = true /\
  thinkText (streamed ["<think>a</think>b"; "<think>c"]) = "ac" /\
  leaves ["<think>a</think>b"; "<think>c"; "d</think>e"] = 2.
Proof. repeat split; reflexivity. Qed.




(** * The result panel and the copy button on a stored text *)

(** C5.  On a text that holds each marker at most once, the open marker
    before the close marker when both occur, the result panel shows a think
    block exactly when both markers occur.  Then the text splits in a unique
    way into marker-free texts before, inside and after the block, the think
    text is the one inside, the answer is the text before followed by the
    text after, and putting the two markers back around the think text gives
    the stored text.  Otherwise the panel keeps the stored text as the
    answer. *)
Theorem split_completeness (text : string) :
  JS.occurrences open_marker text <= 1 ->
  JS.occurrences close_marker text <= 1 ->
  (forall i j, JS.indexOf open_marker text = Some i ->
               JS.indexOf close_marker text = Some j -> i < j) ->
  exists v,
    resultPanelSplit text = Some v /\
    hasThink v =
      JS.includes open_marker text && JS.includes close_marker text /\
    (hasThink v = true ->
     exists pre think post,
       marker_free pre /\ marker_free think /\ marker_free post /\
       thinkContent v = Some think /\
       mainContent v = pre ++ post /\
       pre ++ open_marker ++ think ++ close_marker ++ post = text /\
       JS.indexOf open_marker text = Some (String.length pre) /\
       JS.indexOf close_marker text =
         Some (String.length (pre ++ open_marker ++ think))) /\
    (hasThink v = false ->
     thinkContent v = Some "" /\ mainContent v = text).
Proof.
  intros No Nc Hord.
  destruct (JS.includes open_marker text && JS.includes close_marker text)
    eqn:B.
  - apply andb_true_iff in B as [Io Ic].
    destruct (single_pair text No Nc Hord Io Ic)
      as (pre & mid & post & E & Hpre & Hm & Hp).
    exists (mkSplit (Some mid) (pre ++ post) true). split; [|split; [|split]].
    + rewrite E. apply panel_marked; [apply Hpre|assumption|assumption].
    + reflexivity.
    + intros _. exists pre, mid, post.
      split; [assumption|]. split; [assumption|]. split; [assumption|].
      split; [reflexivity|]. split; [reflexivity|]. split; [now rewrite E|].
      rewrite !indexOf_cut, E. split.
      * rewrite open_cut by apply Hpre. reflexivity.
      * replace (pre ++ open_marker ++ mid ++ close_marker ++ post)
          with ((pre ++ open_marker ++ mid) ++ close_marker ++ post)
          by now rewrite !app_assoc.
        rewrite close_cut; [reflexivity|].
        apply close_around_open; [apply Hpre|apply Hm].
    + discriminate.
  - exists (mkSplit (Some "") text false). split; [now apply panel_plain|].
    split; [reflexivity|]. split; [discriminate|]. intros _. now split.
Qed.

Lemma split_completeness_witness :
  exists v,
    resultPanelSplit "Hello <think>deep thoughts</think>world" = Some v /\
    hasThink v = true.
Proof.
  destruct (split_completeness "Hello <think>deep thoughts</think>world")
    as (v & E & H & _).
  - vm_compute. lia.
  - vm_compute. lia.
  - intros i j Hi Hj. vm_compute in Hi, Hj.
    injection Hi as <-. injection Hj as <-. lia.
  - exists v. split; [exact E|exact H].
Defined.

(** C10, as the code has it.  Take a stored text that holds both markers,
    with no close marker before its first open marker: marker-free text, an
    open marker, and a text that holds a close marker.  The copy button
    keeps only text from after the first close marker, namely the text
    between it and the next close marker or the end; the text before the
    open marker is left out of the copy, whereas the answer of the result
    panel starts with it.  When the text is one think block between two
    marker-free texts, the copy is the text after the block and the panel
    shows the text before the block followed by it. *)
Theorem copy_after_close (pre body : string) :
  marker_free pre ->
  JS.includes close_marker body = true ->
  let text := pre ++ open_marker ++ body in
  (exists x copied rest,
     body = x ++ close_marker ++ copied ++ rest /\
     JS.includes close_marker x = false /\
     JS.includes close_marker copied = false /\
     (rest = "" \/ exists r, rest = close_marker ++ r) /\
     copyContent text = Some copied) /\
  (exists v tail,
     resultPanelSplit text = Some v /\ mainContent v = pre ++ tail) /\
  (forall mid post,
     body = mid ++ close_marker ++ post ->
     marker_free mid -> marker_free post ->
     copyContent text = Some post /\
     resultPanelSplit text = Some (mkSplit (Some mid) (pre ++ post) true)).
Proof.
  intros [Hpo Hpc] Ib text.
  assert (Io : JS.includes open_marker text = true) by apply includes_here.
  assert (Ic : JS.includes close_marker text = true).
  { apply includes_spec in Ib as [u [v ->]]. apply includes_spec.
    exists (pre ++ open_marker ++ u), v. unfold text.
    now rewrite !app_assoc. }
  split; [|split].
  - destruct (cut_some _ _ Ib) as [x [after C]].
    pose proof (cut_before _ _ _ _ close_nonempty C) as Hx.
    pose proof (cut_close_after_open pre body x after Hpc C) as C2.
    destruct (copy_between text _ after Io C2)
      as (copied & rest & E2 & Hc & Hr & Hcopy).
    exists x, copied, rest. apply cut_spec in C. rewrite <- E2. auto.
  - unfold resultPanelSplit. rewrite or_else_empty, Io, Ic. unfold text.
    rewrite (split_some _ _ pre body open_nonempty) by now apply open_cut.
    reduce. destruct (split_nonempty open_marker body open_nonempty)
      as [p Hp].
    unfold JS.at_ in Hp.
    destruct (JS.split open_marker body) as [|q qs]; [discriminate Hp|].
    cbn [andb]. eexists. eexists. split; reflexivity.
  - intros mid post E [Hmo Hmc] [Hqo Hqc]. unfold text. rewrite E.
    split; [|apply panel_marked; try split; assumption].
    assert (Ht : JS.truthy (Some text) = true).
    { destruct text; [discriminate Io|reflexivity]. }
    unfold copyContent. unfold text in Ht, Io, Ic. rewrite E in Ht, Io, Ic.
    rewrite Ht, Io, Ic.
    replace (pre ++ open_marker ++ mid ++ close_marker ++ post)
      with ((pre ++ open_marker ++ mid) ++ close_marker ++ post)
      by now rewrite !app_assoc.
    rewrite split_close; [reduce; now rewrite or_else_empty| |assumption].
    apply close_around_open; assumption.
Qed.

Lemma copy_after_close_witness :
  copyContent "Hello <think>deep thoughts</think>world" = Some "world" /\
  resultPanelSplit "Hello <think>deep thoughts</think>world" =
  Some (mkSplit (Some "deep thoughts") "Hello world" true).
Proof.
  destruct (copy_after_close "Hello " "deep thoughts</think>world")
    as (_ & _ & H); [split; reflexivity|reflexivity|].
  apply (H "deep thoughts" "world"); [reflexivity|..]; split; reflexivity.
Defined.

(** C10 as stated fails: when a close marker comes before the open marker,
    the copy starts after that close marker and keeps text that precedes
    the open marker, and the open marker itself. *)
Lemma copy_after_close_counterexample :
  JS.includes open_marker "x</think>a<think>b</think>c" = true /\
  JS.includes close_marker "x</think>a<think>b</think>c" = true /\
  copyContent "x</think>a<think>b</think>c" = Some "a<think>b" /\
  resultPanelSplit "x</think>a<think>b</think>c" =
    Some (mkSplit (Some "b") "x</think>ac" true).
Proof. repeat split; reflexivity. Qed.

(** * Chunks and clicks during a run *)

Lemma on_event_flag (st : ui * closure) (e : event) :
  isThinking (fst st) = internalThinkMode (snd st) ->
  isThinking (fst (on_event st e)) = internalThinkMode (snd (on_event st e)).
Proof.
  intros H. destruct e as [c|]; cbn [on_event].
  - cbn [fst snd]. now apply chunk_isThinking.
  - destruct (JS.truthy _); [|exact H]. exact H.
Qed.

Lemma chunk_expands (k : closure) (u : ui) (c : string) :
  JS.includes open_marker c = true ->
  internalThinkMode (fst (fst (onSummaryChunk k c))) = true ->
  showThink (apply_updates u (snd (fst (onSummaryChunk k c)))) = true.
Proof.
  intros Ho. unfold onSummaryChunk. rewrite Ho.
  destruct (split_second open_marker c) as [p Hp];
    [discriminate|assumption|].
  rewrite Hp. reduce.
  destruct (JS.truthy _), (JS.includes close_marker p); cbn;
    intros H; try discriminate H; reflexivity.
Qed.

Lemma interact_chunks (frags : list string) :
  interact (map Chunk frags) =
  (streamed frags, fst (feed (mkClosure false 0) frags)).
Proof.
  unfold interact, streamed. rewrite apply_updates_app.
  generalize (apply_updates initial_ui reset_log) as u.
  generalize (mkClosure false 0) as k.
  induction frags as [|c cs IH]; intros k u; [reflexivity|].
  cbn [map fold_left on_event fst snd]. rewrite IH, feed_cons.
  cbn [fst snd]. now rewrite apply_updates_app.
Qed.

(** X5.  During a run the think-panel flag always equals the mode of the
    listener, whatever chunks arrive and however often the user clicks the
    header of the think panel in between; and a chunk that holds an open
    marker and leaves the listener thinking expands the panel, whatever the
    user had done to it.  With no click the window is the one the listener
    alone builds. *)
Theorem think_flag_follows_mode (events : list event) :
  isThinking (fst (interact events)) =
    internalThinkMode (snd (interact events)) /\
  (forall c,
     JS.includes open_marker c = true ->
     internalThinkMode (snd (interact (events ++ [Chunk c]))) = true ->
     showThink (fst (interact (events ++ [Chunk c]))) = true) /\
  (forall frags,
     interact (map Chunk frags) =
     (streamed frags, fst (feed (mkClosure false 0) frags))).
Proof.
  split; [|split].
  - unfold interact.
    assert (H : isThinking (fst (apply_updates initial_ui reset_log,
                                 mkClosure false 0))
                = internalThinkMode
                    (snd (apply_updates initial_ui reset_log,
                          mkClosure false 0))) by reflexivity.
    revert H. generalize (apply_updates initial_ui reset_log,
                          mkClosure false 0) as st.
    induction events as [|e es IH]; intros st H; [exact H|].
    cbn [fold_left]. apply IH. now apply on_event_flag.
  - intros c Ho. unfold interact. rewrite fold_left_app.
    cbn [fold_left on_event fst snd]. now apply chunk_expands.
  - apply interact_chunks.
Qed.

(** * Runs of [handleGenerate] that fail *)

(** The request of a run carries the options built from the
    configuration. *)
Lemma dispatched_options (s : session) (cfg : config) (be : backend)
  (sid : string) (days : nat) (o : options) :
  In (GenerateSummary sid days o) (snd (handleGenerate s cfg be)) ->
  sid = sessionId s /\ days = timeRangeDays s /\ o = generateOptions s cfg.
Proof.
  unfold handleGenerate.
  destruct (negb (JS.truthy (Some (sessionId s)))); [intros []|].
  destruct (negb (JS.truthy (aiApiKey cfg))); [intros []|].
  destruct (feed (mkClosure false 0) (chunks be)) as [k' stream_log].
  assert (H : forall tail,
            In (GenerateSummary sid days o)
               ([OnSummaryChunk;
                 GenerateSummary (sessionId s) (timeRangeDays s)
                   (generateOptions s cfg); Cleanup] ++ tail) ->
            (forall x, In x tail -> x <> GenerateSummary sid days o) ->
            sid = sessionId s /\ days = timeRangeDays s /\
            o = generateOptions s cfg).
  { intros tail Hin Ht. apply in_app_or in Hin as [Hin|Hin].
    - cbn in Hin. destruct Hin as [Hin|[Hin|[Hin|[]]]];
        try discriminate Hin. injection Hin as <- <- <-. auto.
    - destruct (Ht _ Hin eq_refl). }
  unfold generateOptions in H.
  destruct (negb (success be)).
  - intros Hin. apply (H []); [now rewrite List.app_nil_r|intros x []].
  - destruct (gen_result be) as [r|].
    + intros Hin. apply (H _ Hin).
      intros x [<-|[<-|[]]]; discriminate.
    + intros Hin. apply (H []); [now rewrite List.app_nil_r|intros x []].
Qed.

(** The updates of any run: the reset, updates of the listener, and a
    closing part that sets an error, or the result of a successful run. *)
Lemma run_log (fault : option (stage * string))
  (s : session) (cfg : config) (be : backend) :
  sessionId s <> "" ->
  exists mid tail,
    fst (handleGenerateRun fault s cfg be) = (reset_log ++ mid ++ tail)%list /\
    forallb streaming mid = true /\
    ((exists m, JS.truthy (Some m) = true /\
                tail = [SetError m; SetIsGenerating false]) \/
     (exists r, fault = None /\ success be = true /\
                gen_result be = Some r /\
                tail = [SetResult (Some r); SetIsGenerating false])).
Proof.
  intros Hs.
  assert (C : forall e, exists m,
            JS.truthy (Some m) = true /\
            caught_log e = [SetError m; SetIsGenerating false]).
  { intros e. eexists. split; [|reflexivity]. reflexivity. }
  assert (G : forall mid0,
            mid0 = (if JS.truthy (aiApiKey cfg)
                    then snd (feed (mkClosure false 0) (chunks be))
                    else []) ->
            forallb streaming mid0 = true).
  { intros mid0 ->. destruct (JS.truthy _);
      [apply feed_streaming|reflexivity]. }
  destruct (generate_log s cfg be Hs) as (tail & E & Ht).
  destruct fault as [[at_stage e]|]; cbn [handleGenerateRun].
  - unfold handleGenerateCaught.
    destruct (sessionId s) as [|c0 sid] eqn:Sid; [congruence|].
    cbn [JS.truthy negb]. destruct (C e) as (m & Hm & Ec).
    destruct (JS.truthy (aiApiKey cfg)) eqn:K; cbn [negb].
    + destruct at_stage; cbn [fst].
      * exists [], (caught_log e). split; [reflexivity|]. eauto.
      * exists [], (caught_log e). split; [reflexivity|]. eauto.
      * exists [], (caught_log e). split; [reflexivity|]. eauto.
      * exists (snd (feed (mkClosure false 0) (chunks be))), (caught_log e).
        split; [reflexivity|]. split; [apply feed_streaming|]. eauto.
      * exists (snd (feed (mkClosure false 0) (chunks be))), (caught_log e).
        split; [reflexivity|]. split; [apply feed_streaming|]. eauto.
    + destruct Ht as [Ht|(r & _ & _ & Hk & _)]; [|congruence].
      destruct at_stage; cbn [fst].
      * exists [], (caught_log e). split; [reflexivity|]. eauto.
      * exists [], tail. split; [exact E|]. eauto.
      * exists [], tail. split; [exact E|]. eauto.
      * exists [], tail. split; [exact E|]. eauto.
      * exists [], tail. split; [exact E|]. eauto.
  - eexists. exists tail. split; [exact E|]. split; [now apply G|].
    destruct Ht as [Ht|(r & H1 & H2 & _ & H3)]; [now left|right; eauto].
Qed.

(** X12.  Every run of [handleGenerate] in an open session, whether its
    awaited calls resolve or one of them rejects or throws, ends with the
    generating flag down and with exactly one of two outcomes on screen:
    the result panel with the result of the service and no error, which
    takes a run without failure, or the setup panel with an error message
    and no result. *)
Theorem generate_ends_idle
  (fault : option (stage * string))
  (s : session) (cfg : config) (be : backend) (u : ui) :
  sessionId s <> "" ->
  let u' := apply_updates u (fst (handleGenerateRun fault s cfg be)) in
  isGenerating u' = false /\
  ((showsResult u' = true /\ showsSetup u' = false /\ error u' = "" /\
    fault = None /\ success be = true /\ result u' = gen_result be) \/
   (showsSetup u' = true /\ showsResult u' = false /\
    showsError u' = true /\ result u' = None)).
Proof.
  intros Hs u'.
  destruct (run_log fault s cfg be Hs) as (mid & tail & E & Hl & Ht).
  unfold u'. rewrite E, !apply_updates_app, reset_wipes.
  destruct (streaming_ui mid (mkUI true "" "" false true None "") Hl)
    as (_ & _ & E3 & E4 & E5).
  set (u1 := apply_updates _ mid) in *. cbn in E3, E4, E5.
  unfold showsResult, showsSetup, showsError, has_result.
  destruct Ht as [(m & Hm & ->)|(r & Hf & Hsucc & Hr & ->)]; cbn;
    rewrite ?E3, ?E4, ?E5, ?Hm; cbn; auto 10.
Qed.

Lemma generate_ends_idle_witness :
  isGenerating
    (apply_updates initial_ui
       (fst (handleGenerateRun (Some (AtGenerate, "Error: socket hang up"))
               (mkSession "wxid_1" "Ann" 7 "")
               (mkConfig (Some "sk") None None None None)
               (mkBackend ["<think>x"] false None None))))
  = false.
Proof.
  apply (generate_ends_idle (Some (AtGenerate, "Error: socket hang up"))
           (mkSession "wxid_1" "Ann" 7 "")
           (mkConfig (Some "sk") None None None None)
           (mkBackend ["<think>x"] false None None) initial_ui).
  discriminate.
Defined.


